(** * examples/sample_code.c: the length-prefixed parser and the bounded copy

    A shallow embedding of [process_input] and [safe_copy_string] on an LP64
    platform (8-byte [size_t]), with a small memory model: the heap of
    [malloc]ed blocks, a log of the memory operations a call performs, and
    an outcome that is either a returned value or undefined behaviour (an
    access outside an object). *)

From Stdlib Require Import ZArith Lia.
From Stdlib Require Import Init.Byte Strings.Byte.
From stdpp Require Import base option list gmap.

Local Open Scope Z_scope.

(** ** Bytes and machine words *)

Abbreviation byte := Byte.byte.

Definition byte_val (b : byte) : Z := Z.of_N (Byte.to_N b).

(** [size_t] is 64 bits wide: arithmetic on it wraps modulo [2^64]. *)
Definition size_bytes : Z := 8.
Definition SIZE_MOD : Z := 2 ^ 64.
Definition SIZE_MAX : Z := SIZE_MOD - 1.

Definition size_add (a b : Z) : Z := (a + b) mod SIZE_MOD.
Definition size_sub (a b : Z) : Z := (a - b) mod SIZE_MOD.

(** The byte order in which the platform stores a word. *)
Inductive endianness := LittleEndian | BigEndian.

Definition decode_le (bs : list byte) : Z :=
  foldr (fun b acc => byte_val b + 256 * acc) 0 bs.

Definition decode_be (bs : list byte) : Z :=
  foldl (fun acc b => 256 * acc + byte_val b) 0 bs.

Definition decode (order : endianness) (bs : list byte) : Z :=
  match order with
  | LittleEndian => decode_le bs
  | BigEndian => decode_be bs
  end.

Definition byte_of_Z (z : Z) : byte :=
  default Byte.x00 (Byte.of_N (Z.to_N (z mod 256))).

Fixpoint encode_le (width : nat) (z : Z) : list byte :=
  match width with
  | O => []
  | S w => byte_of_Z z :: encode_le w (z / 256)
  end.

Definition encode (order : endianness) (z : Z) : list byte :=
  match order with
  | LittleEndian => encode_le 8 z
  | BigEndian => rev (encode_le 8 z)
  end.

(** [blen bs] is the size of the object [bs], as a C integer. *)
Definition blen {A} (bs : list A) : Z := Z.of_nat (length bs).

(** The bytes [off, off + n) of an object. *)
Definition slice {A} (off n : Z) (bs : list A) : list A :=
  take (Z.to_nat n) (drop (Z.to_nat off) bs).

Definition in_bounds {A} (off n : Z) (bs : list A) : bool :=
  (0 <=? off) && (0 <=? n) && (off + n <=? blen bs).

(** ** Memory, log and outcomes *)

Abbreviation block := positive.

(** A cell of a [malloc]ed block holds a byte once it has been written. *)
Abbreviation cells := (list (option byte)).

Inductive event :=
| EvRead (off n : Z)                         (* the input bytes [off, off+n) are read *)
| EvMalloc (n : Z) (r : option block)        (* malloc(n) returned r *)
| EvWrite (b : block) (off : Z) (data : list byte)
| EvFree (b : block).

Record state := State { heap : gmap block cells; trace : list event }.

Inductive outcome (A : Type) :=
| Returned (a : A)
| Undefined.
Arguments Returned {A} a.
Arguments Undefined {A}.

(** Whether [malloc] grants a request is decided by the allocator from the
    blocks that are live and the size asked for. *)
Definition allocator := gmap block cells -> Z -> bool.

Definition M (A : Type) : Type := state -> outcome A * state.

Definition ret {A} (a : A) : M A := fun s => (Returned a, s).

Definition bind {A B} (m : M A) (k : A -> M B) : M B :=
  fun s => match m s with
           | (Returned a, s') => k a s'
           | (Undefined, s') => (Undefined, s')
           end.

Declare Scope cmd_scope.
Delimit Scope cmd_scope with cmd.
Notation "'let*' x ':=' m 'in' k" := (bind m (fun x => k))
  (at level 10, x name, m at level 99, k at level 200) : cmd_scope.
Notation "y ;; z" := (bind y (fun _ => z))
  (at level 100, z at level 200, only parsing, right associativity) : cmd_scope.
Local Open Scope cmd_scope.

Definition undefined {A} : M A := fun s => (Undefined, s).

Definition get_heap : M (gmap block cells) := fun s => (Returned (heap s), s).

Definition set_heap (h : gmap block cells) : M unit :=
  fun s => (Returned tt, State h (trace s)).

Definition emit (e : event) : M unit :=
  fun s => (Returned tt, State (heap s) (trace s ++ [e])).

(** [a && b] of C: [b] is evaluated only when [a] holds. *)
Definition and_then (a b : M bool) : M bool :=
  let* x := a in if x then b else ret false.

(** ** The C library and the memory operations *)

Section Machine.
Context (order : endianness) (alloc : allocator).

(** [input[i]] *)
Definition load (buf : list byte) (i : Z) : M byte :=
  emit (EvRead i 1);;
  match (if 0 <=? i then buf !! Z.to_nat i else None) with
  | Some b => ret b
  | None => undefined
  end.

(** [*(size_t * )(input + off)] *)
Definition load_size_t (buf : list byte) (off : Z) : M Z :=
  emit (EvRead off size_bytes);;
  if in_bounds off size_bytes buf
  then ret (decode order (slice off size_bytes buf))
  else undefined.

Definition malloc (n : Z) : M (option block) :=
  let* h := get_heap in
  if alloc h n then
    let b := fresh (dom h) in
    set_heap (<[b := replicate (Z.to_nat n) None]> h);;
    emit (EvMalloc n (Some b));;
    ret (Some b)
  else
    emit (EvMalloc n None);;
    ret None.

(** [memcpy(dst, input + off, n)] with [dst] the start of block [b] *)
Definition memcpy (b : block) (buf : list byte) (off n : Z) : M unit :=
  emit (EvRead off n);;
  if in_bounds off n buf then
    let* h := get_heap in
    match h !! b with
    | Some cs =>
        if n <=? blen cs then
          let data := slice off n buf in
          set_heap (<[b := (Some <$> data) ++ drop (Z.to_nat n) cs]> h);;
          emit (EvWrite b 0 data)
        else undefined
    | None => undefined
    end
  else undefined.

Definition free (b : block) : M unit :=
  let* h := get_heap in
  match h !! b with
  | Some _ => set_heap (delete b h);; emit (EvFree b)
  | None => undefined
  end.

(** ** process_input *)

Definition is_char (c : byte) (m : M byte) : M bool :=
  let* x := m in ret (Byte.eqb x c).

(** [len >= 4 && input[0] == 'F' && input[1] == 'U' && input[2] == 'Z' &&
    input[3] == 'Z'] *)
Definition magic_ok (buf : list byte) (len : Z) : M bool :=
  and_then (ret (4 <=? len))
    (and_then (is_char "F" (load buf 0))
       (and_then (is_char "U" (load buf 1))
          (and_then (is_char "Z" (load buf 2))
             (is_char "Z" (load buf 3))))).

Definition process_input (input : option (list byte)) (len : Z) : M Z :=
  match input with
  | None => ret (-1)
  | Some buf =>
      if len =? 0 then ret (-1) else
      let* magic := magic_ok buf len in
      if magic then
        if 8 <=? len then
          let* data_len := load_size_t buf 4 in
          if (0 <? data_len) && (size_add 8 data_len <=? len) then
            let* buffer := malloc data_len in
            match buffer with
            | Some b =>
                memcpy b buf 8 data_len;;
                free b;;
                ret 0
            | None => ret 1
            end
          else ret 1
        else ret 1
      else ret 1
  end.

End Machine.

(** ** safe_copy_string *)

(** The [n] bytes that [strncpy(dest, src, n)] stores at [dest]: the
    characters of [src] up to its terminator, then null bytes up to [n];
    [None] when the copy runs off the end of the object [src]. *)
Fixpoint strncpy_bytes (src : list byte) (n : nat) {struct n} : option (list byte) :=
  match n with
  | O => Some []
  | S n' =>
      match src with
      | [] => None
      | c :: src' =>
          if Byte.eqb c "000" then Some (replicate (S n') "000"%byte)
          else cons c <$> strncpy_bytes src' n'
      end
  end.

Definition strncpy (dest src : list byte) (n : Z) : outcome (list byte) :=
  if in_bounds 0 n dest then
    match strncpy_bytes src (Z.to_nat n) with
    | Some bs => Returned (bs ++ drop (Z.to_nat n) dest)
    | None => Undefined
    end
  else Undefined.

(** [dest[i] = c] *)
Definition store (dest : list byte) (i : Z) (c : byte) : outcome (list byte) :=
  if in_bounds i 1 dest then Returned (<[Z.to_nat i := c]> dest) else Undefined.

(** The function returns nothing; its effect is on the object [dest] points
    to, whose final contents the model returns ([None] for a null [dest]). *)
Definition safe_copy_string (dest src : option (list byte)) (dest_size : Z)
  : outcome (option (list byte)) :=
  match dest, src with
  | Some d, Some s =>
      if dest_size =? 0 then Returned (Some d) else
      match strncpy d s (size_sub dest_size 1) with
      | Returned d1 =>
          match store d1 (size_sub dest_size 1) "000" with
          | Returned d2 => Returned (Some d2)
          | Undefined => Undefined
          end
      | Undefined => Undefined
      end
  | _, _ => Returned dest
  end.

(** The characters of the C string at [src]: the bytes before the first
    null byte. *)
Fixpoint c_string (src : list byte) : list byte :=
  match src with
  | [] => []
  | c :: src' => if Byte.eqb c "000" then [] else c :: c_string src'
  end.

(** [strncpy] may read [n] bytes of [src]: the object holds a terminator, or
    at least [n] bytes. *)
Definition src_readable (src : list byte) (n : Z) : Prop :=
  "000"%byte ∈ src \/ n <= blen src.

(** ** Inputs and observations used in the statements *)

Definition FUZZ : list byte := ["F"; "U"; "Z"; "Z"]%byte.

(** The reads of a successful magic check. *)
Definition tag_reads : list event := [EvRead 0 1; EvRead 1 1; EvRead 2 1; EvRead 3 1].

(** The sizes asked of [malloc], the data written, and the range of the reads. *)
Definition allocations (t : list event) : list Z :=
  omap (fun e => match e with EvMalloc n _ => Some n | _ => None end) t.

Definition writes (t : list event) : list (block * Z * list byte) :=
  omap (fun e => match e with EvWrite b off d => Some (b, off, d) | _ => None end) t.

Definition read_within (len : Z) (e : event) : Prop :=
  match e with
  | EvRead off n => 0 <= off /\ off + n <= len
  | _ => True
  end.

Definition reads_within (len : Z) (t : list event) : Prop := Forall (read_within len) t.

Definition header_reads : list event := tag_reads ++ [EvRead 4 size_bytes].

(** The state in which the length field has been read. *)
Definition header_read (s : state) : state :=
  State (heap s) (trace s ++ header_reads).

Definition is_read (e : event) : Prop :=
  match e with EvRead _ _ => True | _ => False end.

(** The blocks obtained from [malloc] and those handed to [free]. *)
Definition allocated (t : list event) : list block :=
  omap (fun e => match e with EvMalloc _ (Some b) => Some b | _ => None end) t.

Definition freed (t : list event) : list block :=
  omap (fun e => match e with EvFree b => Some b | _ => None end) t.

(** The accesses of [process_input] that can leave an object: a tag byte,
    the length field, or the payload once the length check has let it pass. *)
Definition fault (order : endianness) (buf : list byte) (len : Z) : Prop :=
  4 <= len /\
  (blen buf < 4 \/
   (take 4 buf = FUZZ /\ 8 <= len /\
    (in_bounds 4 size_bytes buf = false \/
     let data_len := decode order (slice 4 size_bytes buf) in
     (0 <? data_len) && (size_add 8 data_len <=? len) = true /\
     in_bounds 8 data_len buf = false))).

(** What a call started on heap [h] can do: its outcome, the heap it leaves
    and the operations it performs. *)
Inductive effect (order : endianness) (input : option (list byte)) (len : Z)
    (h : gmap block cells) : outcome Z -> gmap block cells -> list event -> Prop :=
| eff_null_or_empty :
    input = None \/ len = 0 -> effect order input len h (Returned (-1)) h []
| eff_rejected (rd : list event) :
    input <> None -> len <> 0 -> Forall is_read rd ->
    effect order input len h (Returned 1) h rd
| eff_alloc_failed (rd : list event) (n : Z) :
    input <> None -> len <> 0 -> Forall is_read rd ->
    effect order input len h (Returned 1) h (rd ++ [EvMalloc n None])
| eff_processed (rd : list event) (n : Z) (data : list byte) :
    input <> None -> len <> 0 -> Forall is_read rd ->
    effect order input len h (Returned 0) h
      (rd ++ [EvMalloc n (Some (fresh (dom h))); EvRead 8 n;
              EvWrite (fresh (dom h)) 0 data; EvFree (fresh (dom h))])
| eff_undefined (buf : list byte) (h' : gmap block cells) (t : list event) :
    input = Some buf -> fault order buf len ->
    effect order input len h Undefined h' t.

(** ** Sample calls *)

Definition s0 : state := State ∅ [].
Definition grant_all : allocator := fun _ _ => true.
Definition refuse_all : allocator := fun _ _ => false.

(** The tag, the 8-byte encoding of 3, and the bytes A, B, C. *)
Definition sample_input (order : endianness) : list byte :=
  FUZZ ++ encode order 3 ++ ["A"; "B"; "C"]%byte.

(** The log of the sample call when the allocation is granted on an empty
    heap: the three bytes written are those at offsets 8 to 10. *)
Definition sample_log : list event :=
  header_reads
    ++ [EvMalloc 3 (Some 1%positive); EvRead 8 3;
        EvWrite 1%positive 0 ["000"; "000"; "000"]%byte; EvFree 1%positive].


(** The tag and four more bytes: an input of length 8. *)
Definition truncated_input : list byte := FUZZ ++ ["001"; "000"; "000"; "000"]%byte.

(** The first 11 bytes of the tag followed by the encoding of 1: an input
    that ends one byte before the end of the length field. *)
Definition clipped_input (order : endianness) : list byte :=
  take 11 (FUZZ ++ encode order 1).



#[global] Instance byte_eq_dec : EqDecision byte := Byte.byte_eq_dec.

(** ** The paths through process_input *)

(** The declared length and the length check, as the code computes them. *)
Definition declared_length (order : endianness) (buf : list byte) : Z :=
  decode order (slice 4 size_bytes buf).

Definition length_check (order : endianness) (buf : list byte) (len : Z) : bool :=
  (0 <? declared_length order buf) && (size_add 8 (declared_length order buf) <=? len).

(** The log of a call that reaches [malloc] and is granted block [b]. *)
Definition copy_log (b : block) (n : Z) (buf : list byte) : list event :=
  [EvMalloc n (Some b); EvRead 8 n; EvWrite b 0 (slice 8 n buf); EvFree b].

(** Each way a call on a non-null buffer with [len <> 0] can go, with the
    tests that select it, its outcome, the heap it leaves and its log. *)
Inductive path (order : endianness) (alloc : allocator) (buf : list byte) (len : Z)
    (h : gmap block cells) : outcome Z -> gmap block cells -> list event -> Prop :=
| path_short :
    len < 4 -> path order alloc buf len h (Returned 1) h []
| path_bad_magic (t : list event) :
    4 <= len -> take 4 buf <> FUZZ -> t `prefix_of` tag_reads ->
    path order alloc buf len h (Returned 1) h t
| path_magic_out_of_bounds (t : list event) :
    4 <= len -> blen buf < 4 -> t `prefix_of` tag_reads ->
    path order alloc buf len h Undefined h t
| path_no_header :
    take 4 buf = FUZZ -> 4 <= len < 8 ->
    path order alloc buf len h (Returned 1) h tag_reads
| path_header_out_of_bounds :
    take 4 buf = FUZZ -> 8 <= len -> in_bounds 4 size_bytes buf = false ->
    path order alloc buf len h Undefined h header_reads
| path_length_rejected :
    take 4 buf = FUZZ -> 8 <= len -> in_bounds 4 size_bytes buf = true ->
    length_check order buf len = false ->
    path order alloc buf len h (Returned 1) h header_reads
| path_alloc_failed :
    take 4 buf = FUZZ -> 8 <= len -> in_bounds 4 size_bytes buf = true ->
    length_check order buf len = true ->
    alloc h (declared_length order buf) = false ->
    path order alloc buf len h (Returned 1) h
      (header_reads ++ [EvMalloc (declared_length order buf) None])
| path_copy_out_of_bounds :
    take 4 buf = FUZZ -> 8 <= len -> in_bounds 4 size_bytes buf = true ->
    length_check order buf len = true ->
    alloc h (declared_length order buf) = true ->
    in_bounds 8 (declared_length order buf) buf = false ->
    path order alloc buf len h Undefined
      (<[fresh (dom h) := replicate (Z.to_nat (declared_length order buf)) None]> h)
      (header_reads ++ [EvMalloc (declared_length order buf) (Some (fresh (dom h)));
                        EvRead 8 (declared_length order buf)])
| path_processed :
    take 4 buf = FUZZ -> 8 <= len -> in_bounds 4 size_bytes buf = true ->
    length_check order buf len = true ->
    alloc h (declared_length order buf) = true ->
    in_bounds 8 (declared_length order buf) buf = true ->
    path order alloc buf len h (Returned 0) h
      (header_reads ++ copy_log (fresh (dom h)) (declared_length order buf) buf).

(** ** copy_string *)

(** The bytes that [strcpy(dest, src)] stores at [dest]: the characters of
    [src] and its terminator; [None] when [src] holds no terminator and the
    copy runs off the end of the object. *)
Fixpoint strcpy_bytes (src : list byte) : option (list byte) :=
  match src with
  | [] => None
  | c :: src' =>
      if Byte.eqb c "000" then Some ["000"%byte]
      else cons c <$> strcpy_bytes src'
  end.

Definition strcpy (dest src : list byte) : outcome (list byte) :=
  match strcpy_bytes src with
  | Some bs =>
      if blen bs <=? blen dest then Returned (bs ++ drop (length bs) dest)
      else Undefined
  | None => Undefined
  end.

(** As for [safe_copy_string], the model returns the final contents of the
    object [dest] points to. The parameter [dest_size] is not used. *)
Definition copy_string (dest src : option (list byte)) (dest_size : Z)
  : outcome (option (list byte)) :=
  match dest, src with
  | Some d, Some s =>
      match strcpy d s with
      | Returned d1 => Returned (Some d1)
      | Undefined => Undefined
      end
  | _, _ => Returned dest
  end.

(** ** sum_array *)

(** [int] is 32 bits wide and [long] 64; overflow of a [long] addition is
    undefined. *)
Definition INT_MIN : Z := - 2 ^ 31.
Definition INT_MAX : Z := 2 ^ 31 - 1.
Definition LONG_MIN : Z := - 2 ^ 63.
Definition LONG_MAX : Z := 2 ^ 63 - 1.

Definition is_int (x : Z) : Prop := INT_MIN <= x <= INT_MAX.

Definition in_long (x : Z) : bool := (LONG_MIN <=? x) && (x <=? LONG_MAX).

(** The loop [for (i = ...; i < count; i++) sum += arr[i]] with [n]
    iterations left. *)
Fixpoint sum_from (arr : list Z) (i : Z) (n : nat) (sum : Z) : outcome Z :=
  match n with
  | O => Returned sum
  | S n' =>
      match arr !! Z.to_nat i with
      | Some x =>
          if in_long (sum + x) then sum_from arr (i + 1) n' (sum + x)
          else Undefined
      | None => Undefined
      end
  end.

Definition sum_array (arr : option (list Z)) (count : Z) : outcome Z :=
  match arr with
  | None => Returned 0
  | Some a => sum_from a 0 (Z.to_nat count) 0
  end.

(** The mathematical sum. *)
Definition sum_Z (l : list Z) : Z := foldr Z.add 0 l.

(** ** find_substring *)

Fixpoint is_prefix (p l : list byte) : bool :=
  match p, l with
  | [], _ => true
  | a :: p', b :: l' => Byte.eqb a b && is_prefix p' l'
  | _ :: _, [] => false
  end.

(** The offset of the first place in the string [hay] where the string
    [needle] starts; an empty [needle] starts at offset 0. *)
Fixpoint first_occurrence (needle hay : list byte) {struct hay} : option nat :=
  if is_prefix needle hay then Some 0%nat
  else match hay with
       | [] => None
       | _ :: hay' => S <$> first_occurrence needle hay'
       end.

Definition terminated (s : list byte) : bool := bool_decide ("000"%byte ∈ s).

(** [strstr(haystack, needle)]: the pointer returned is [haystack] plus the
    offset, [None] is the null pointer; both arguments are read up to their
    terminators. *)
Definition strstr (haystack needle : list byte) : outcome (option Z) :=
  if terminated haystack && terminated needle
  then Returned (Z.of_nat <$> first_occurrence (c_string needle) (c_string haystack))
  else Undefined.

Definition find_substring (haystack needle : option (list byte)) : outcome (option Z) :=
  match haystack, needle with
  | Some h, Some n => strstr h n
  | _, _ => Returned None
  end.

(** The string [needle] starts at offset [i] of the string [hay]. *)
Definition occurs_at (needle hay : list byte) (i : nat) : Prop :=
  take (length needle) (drop i hay) = needle.

(** ** parse_int *)

(** [isspace] in the C locale: space, and the controls from tab to carriage
    return. *)
Definition is_space (c : byte) : bool :=
  (byte_val c =? 32) || ((9 <=? byte_val c) && (byte_val c <=? 13)).

Definition digit_of (c : byte) : option Z :=
  if (48 <=? byte_val c) && (byte_val c <=? 57) then Some (byte_val c - 48) else None.

Definition in_int (x : Z) : bool := (INT_MIN <=? x) && (x <=? INT_MAX).

(** The string from its first character that is not white space; [None]
    when the scan runs off the end of the object. *)
Fixpoint skip_spaces (s : list byte) : option (list byte) :=
  match s with
  | [] => None
  | c :: s' => if is_space c then skip_spaces s' else Some s
  end.

(** The value of the digits at the start of [s], after the value [acc] of
    the digits already read; the scan ends at the first character that is
    not a digit. *)
Fixpoint read_digits (s : list byte) (acc : Z) : option Z :=
  match s with
  | [] => None
  | c :: s' =>
      match digit_of c with
      | Some d => read_digits s' (10 * acc + d)
      | None => Some acc
      end
  end.

(** [atoi(str)]: white space, an optional sign, decimal digits; 0 when no
    digit follows, undefined when the value is not an [int]. *)
Definition atoi (s : list byte) : outcome Z :=
  match skip_spaces s with
  | Some (c :: s') =>
      let negative := Byte.eqb c "-" in
      let digits := if Byte.eqb c "-" || Byte.eqb c "+" then s' else c :: s' in
      match read_digits digits 0 with
      | Some v =>
          let r := if negative then - v else v in
          if in_int r then Returned r else Undefined
      | None => Undefined
      end
  | _ => Undefined
  end.

Definition parse_int (str : option (list byte)) : outcome Z :=
  match str with
  | None => Returned 0
  | Some s => atoi s
  end.

(** The character of a decimal digit, and the number a digit sequence
    denotes. *)
Definition digit_char (d : Z) : byte := byte_of_Z (48 + d).

Fixpoint positional (ds : list Z) : Z :=
  match ds with
  | [] => 0
  | d :: ds' => d * 10 ^ blen ds' + positional ds'
  end.

Definition is_digit (d : Z) : Prop := 0 <= d <= 9.

(** * Properties *)

(** ** Words and objects *)

Lemma byte_eqb_eq (x c : byte) : Byte.eqb x c = true <-> x = c.
Proof.
  split; [apply Byte.byte_dec_bl | intros ->; apply Byte.byte_dec_lb; reflexivity].
Qed.

Lemma byte_val_range (b : byte) : 0 <= byte_val b < 256.
Proof.
  unfold byte_val. pose proof (Byte.to_N_bounded b). lia.
Qed.

Lemma decode_le_range (bs : list byte) : 0 <= decode_le bs < 256 ^ blen bs.
Proof.
  unfold blen. induction bs as [|b bs IH]; [simpl; lia|].
  cbn [decode_le foldr length]. fold (decode_le bs).
  rewrite Nat2Z.inj_succ, Z.pow_succ_r by lia.
  pose proof (byte_val_range b). nia.
Qed.

Lemma decode_be_snoc (bs : list byte) (b : byte) :
  decode_be (bs ++ [b]) = 256 * decode_be bs + byte_val b.
Proof. unfold decode_be. rewrite foldl_app. reflexivity. Qed.

Lemma decode_be_rev (bs : list byte) : decode_be (rev bs) = decode_le bs.
Proof.
  induction bs as [|b bs IH]; [reflexivity|].
  cbn [rev]. rewrite decode_be_snoc, IH. cbn [decode_le foldr]. fold (decode_le bs). lia.
Qed.

Lemma decode_range (order : endianness) (bs : list byte) :
  0 <= decode order bs < 256 ^ blen bs.
Proof.
  destruct order; cbn [decode]; [apply decode_le_range|].
  rewrite <- (rev_involutive bs), decode_be_rev.
  replace (blen (rev (rev bs))) with (blen (rev bs)); [apply decode_le_range|].
  unfold blen. rewrite !length_rev. reflexivity.
Qed.

Lemma byte_val_of_Z (z : Z) : byte_val (byte_of_Z z) = z mod 256.
Proof.
  unfold byte_val, byte_of_Z. pose proof (Z.mod_pos_bound z 256 eq_refl) as Hz.
  destruct (Byte.of_N (Z.to_N (z mod 256))) as [b|] eqn:E; cbn.
  - apply Byte.to_of_N in E. rewrite E. lia.
  - apply Byte.of_N_None_iff in E. lia.
Qed.

Lemma decode_encode_le (width : nat) (z : Z) :
  decode_le (encode_le width z) = z mod 256 ^ Z.of_nat width.
Proof.
  revert z. induction width as [|w IH]; intros z.
  { cbn. by rewrite Z.mod_1_r. }
  cbn [encode_le decode_le foldr]. fold (decode_le (encode_le w (z / 256))).
  rewrite IH, byte_val_of_Z, Nat2Z.inj_succ, Z.pow_succ_r by lia.
  symmetry. apply Z.rem_mul_r; lia.
Qed.

(** Decoding inverts encoding on every value of a [size_t]. *)
Lemma decode_encode (order : endianness) (z : Z) :
  0 <= z <= SIZE_MAX -> decode order (encode order z) = z.
Proof.
  intros Hz. assert (H : decode_le (encode_le 8 z) = z).
  { rewrite decode_encode_le. apply Z.mod_small. unfold SIZE_MAX, SIZE_MOD in Hz.
    change (256 ^ Z.of_nat 8) with (2 ^ 64). lia. }
  destruct order; cbn [decode encode]; [assumption|]. by rewrite decode_be_rev.
Qed.

Lemma blen_slice {A} (off n : Z) (bs : list A) :
  in_bounds off n bs = true -> blen (slice off n bs) = n.
Proof.
  unfold in_bounds, slice, blen. intros H.
  apply andb_true_iff in H as [H H3]. apply andb_true_iff in H as [H1 H2].
  rewrite length_take, length_drop. lia.
Qed.

(** The length field is a [size_t]: it lies below [2^64]. *)
Lemma data_len_range (order : endianness) (buf : list byte) :
  in_bounds 4 size_bytes buf = true ->
  0 <= decode order (slice 4 size_bytes buf) <= SIZE_MAX.
Proof.
  intros H. pose proof (decode_range order (slice 4 size_bytes buf)) as Hr.
  rewrite (blen_slice _ _ _ H) in Hr. unfold SIZE_MAX, SIZE_MOD, size_bytes in *.
  change (256 ^ 8) with (2 ^ 64) in Hr. lia.
Qed.

(** ** The memory operations *)

Ltac run_step := unfold bind, ret, emit, undefined, get_heap, set_heap; cbn beta iota delta [heap trace].

(** Constant indices are turned into numerals before the lookups are computed. *)
Ltac to_nat_literals :=
  repeat match goal with
         | |- context [Z.to_nat (Zpos ?p)] =>
             let n := eval vm_compute in (Z.to_nat (Zpos p)) in
             change (Z.to_nat (Zpos p)) with n
         | |- context [Z.to_nat 0] => change (Z.to_nat 0) with 0%nat
         end.

Section MachineLemmas.
Context (order : endianness) (alloc : allocator).

Lemma load_hit (buf : list byte) (i : nat) (b : byte) (s : state) :
  buf !! i = Some b ->
  load buf (Z.of_nat i) s = (Returned b, State (heap s) (trace s ++ [EvRead (Z.of_nat i) 1])).
Proof.
  intros H. unfold load. run_step.
  destruct (Z.leb_spec 0 (Z.of_nat i)); [|lia].
  rewrite Nat2Z.id, H. reflexivity.
Qed.

Lemma load_miss (buf : list byte) (i : nat) (s : state) :
  buf !! i = None ->
  load buf (Z.of_nat i) s = (Undefined, State (heap s) (trace s ++ [EvRead (Z.of_nat i) 1])).
Proof.
  intros H. unfold load. run_step.
  destruct (Z.leb_spec 0 (Z.of_nat i)); [|lia].
  rewrite Nat2Z.id, H. reflexivity.
Qed.

Lemma load_size_t_hit (buf : list byte) (off : Z) (s : state) :
  in_bounds off size_bytes buf = true ->
  load_size_t order buf off s
  = (Returned (decode order (slice off size_bytes buf)),
     State (heap s) (trace s ++ [EvRead off size_bytes])).
Proof. intros H. unfold load_size_t. run_step. rewrite H. reflexivity. Qed.

Lemma load_size_t_miss (buf : list byte) (off : Z) (s : state) :
  in_bounds off size_bytes buf = false ->
  load_size_t order buf off s
  = (Undefined, State (heap s) (trace s ++ [EvRead off size_bytes])).
Proof. intros H. unfold load_size_t. run_step. rewrite H. reflexivity. Qed.

Lemma malloc_granted (n : Z) (s : state) :
  alloc (heap s) n = true ->
  malloc alloc n s
  = (Returned (Some (fresh (dom (heap s)))),
     State (<[fresh (dom (heap s)) := replicate (Z.to_nat n) None]> (heap s))
           (trace s ++ [EvMalloc n (Some (fresh (dom (heap s))))])).
Proof. intros H. unfold malloc. run_step. rewrite H. reflexivity. Qed.

Lemma malloc_refused (n : Z) (s : state) :
  alloc (heap s) n = false ->
  malloc alloc n s = (Returned None, State (heap s) (trace s ++ [EvMalloc n None])).
Proof. intros H. unfold malloc. run_step. rewrite H. reflexivity. Qed.

Lemma memcpy_copies (b : block) (buf : list byte) (off n : Z) (cs : cells) (s : state) :
  in_bounds off n buf = true -> heap s !! b = Some cs -> n <= blen cs ->
  memcpy b buf off n s
  = (Returned tt,
     State (<[b := (Some <$> slice off n buf) ++ drop (Z.to_nat n) cs]> (heap s))
           ((trace s ++ [EvRead off n]) ++ [EvWrite b 0 (slice off n buf)])).
Proof.
  intros Hin Hb Hn. unfold memcpy. run_step. rewrite Hin. run_step. rewrite Hb.
  destruct (Z.leb_spec n (blen cs)); [reflexivity | lia].
Qed.

Lemma memcpy_out_of_bounds (b : block) (buf : list byte) (off n : Z) (s : state) :
  in_bounds off n buf = false ->
  memcpy b buf off n s = (Undefined, State (heap s) (trace s ++ [EvRead off n])).
Proof. intros Hin. unfold memcpy. run_step. rewrite Hin. reflexivity. Qed.

Lemma free_live (b : block) (cs : cells) (s : state) :
  heap s !! b = Some cs ->
  free b s = (Returned tt, State (delete b (heap s)) (trace s ++ [EvFree b])).
Proof. intros H. unfold free. run_step. rewrite H. reflexivity. Qed.

(** A block is allocated, filled and released: the heap is as before. *)
Lemma scratch_released (h : gmap block cells) (c1 c2 : cells) :
  delete (fresh (dom h)) (<[fresh (dom h) := c2]> (<[fresh (dom h) := c1]> h)) = h.
Proof.
  rewrite insert_insert_eq, delete_insert_eq. apply delete_id.
  apply not_elem_of_dom, is_fresh.
Qed.

(** *** The magic check *)

Lemma magic_ok_short (buf : list byte) (len : Z) (s : state) :
  len < 4 -> magic_ok buf len s = (Returned false, s).
Proof.
  intros H. unfold magic_ok, and_then. run_step.
  destruct (Z.leb_spec 4 len); [lia | reflexivity].
Qed.

Lemma magic_ok_match (rest : list byte) (len : Z) (s : state) :
  4 <= len ->
  magic_ok (FUZZ ++ rest) len s = (Returned true, State (heap s) (trace s ++ tag_reads)).
Proof.
  intros H. unfold magic_ok, and_then, is_char, load. run_step.
  destruct (Z.leb_spec 4 len); [|lia].
  to_nat_literals. cbn. rewrite <- !app_assoc. reflexivity.
Qed.

Lemma take_magic (buf : list byte) :
  take 4 buf = FUZZ -> buf = FUZZ ++ drop 4 buf.
Proof. intros H. rewrite <- H. symmetry. apply take_drop. Qed.

(** Whatever the buffer holds, the check reads a prefix of the four tag
    bytes, touches nothing else, and says yes only to the magic. *)
Lemma magic_ok_cases (buf : list byte) (len : Z) :
  4 <= len ->
  exists o t,
    (forall s, magic_ok buf len s = (o, State (heap s) (trace s ++ t))) /\
    t `prefix_of` tag_reads /\
    ((o = Returned true /\ take 4 buf = FUZZ /\ t = tag_reads) \/
     (o = Returned false /\ take 4 buf <> FUZZ) \/
     (o = Undefined /\ blen buf < 4)).
Proof.
  intros H.
  assert (Hrun : forall s, magic_ok buf len s
                 = and_then (ret true)
                     (and_then (is_char "F" (load buf 0))
                        (and_then (is_char "U" (load buf 1))
                           (and_then (is_char "Z" (load buf 2))
                              (is_char "Z" (load buf 3))))) s).
  { intros s. unfold magic_ok. destruct (Z.leb_spec 4 len); [reflexivity | lia]. }
  destruct buf as [|b0 [|b1 [|b2 [|b3 rest]]]].
  all: try destruct (Byte.eqb b0 "F") eqn:E0.
  all: try destruct (Byte.eqb b1 "U") eqn:E1.
  all: try destruct (Byte.eqb b2 "Z") eqn:E2.
  all: try destruct (Byte.eqb b3 "Z") eqn:E3.
  all: eexists _, _; split;
    [ intros s; rewrite Hrun; unfold and_then, is_char, load; run_step;
      to_nat_literals; cbn; rewrite ?E0, ?E1, ?E2, ?E3; cbn;
      rewrite <- ?app_assoc; cbn [app]; reflexivity | ].
  all: split; [by (eexists; reflexivity) |].
  all: rewrite ?byte_eqb_eq in *; subst.
  all: try (left; by repeat split).
  all: try (right; right; split; [reflexivity | unfold blen; cbn; lia]).
  all: right; left; split; [reflexivity|]; unfold FUZZ; intros [=]; subst;
    discriminate.
Qed.

(** *** The paths through process_input *)

Lemma process_input_null (len : Z) (s : state) :
  process_input order alloc None len s = (Returned (-1), s).
Proof. reflexivity. Qed.

Lemma process_input_empty (input : option (list byte)) (s : state) :
  process_input order alloc input 0 s = (Returned (-1), s).
Proof. destruct input; reflexivity. Qed.

Lemma process_input_short (buf : list byte) (len : Z) (s : state) :
  len <> 0 -> len < 4 ->
  process_input order alloc (Some buf) len s = (Returned 1, s).
Proof.
  intros H0 H4. unfold process_input.
  destruct (Z.eqb_spec len 0); [lia|]. unfold bind at 1.
  rewrite magic_ok_short by assumption. reflexivity.
Qed.

Lemma process_input_bad_magic (buf : list byte) (len : Z) :
  4 <= len -> take 4 buf <> FUZZ ->
  exists o t,
    (forall s, process_input order alloc (Some buf) len s
               = (o, State (heap s) (trace s ++ t))) /\
    t `prefix_of` tag_reads /\
    (o = Returned 1 \/ (o = Undefined /\ blen buf < 4)).
Proof.
  intros H4 Hne.
  destruct (magic_ok_cases buf len H4) as (o & t & Hrun & Hp & Ho).
  destruct Ho as [(-> & Hm & _) | [(-> & _) | (-> & Hb)]]; [done | |].
  - exists (Returned 1), t. split; [|auto]. intros s. unfold process_input.
    destruct (Z.eqb_spec len 0); [lia|]. unfold bind at 1. rewrite Hrun. reflexivity.
  - exists Undefined, t. split; [|auto]. intros s. unfold process_input.
    destruct (Z.eqb_spec len 0); [lia|]. unfold bind at 1. rewrite Hrun. reflexivity.
Qed.

Lemma process_input_no_header (rest : list byte) (len : Z) (s : state) :
  4 <= len -> len < 8 ->
  process_input order alloc (Some (FUZZ ++ rest)) len s
  = (Returned 1, State (heap s) (trace s ++ tag_reads)).
Proof.
  intros H4 H8. unfold process_input.
  destruct (Z.eqb_spec len 0); [lia|]. unfold bind at 1.
  rewrite magic_ok_match by assumption.
  destruct (Z.leb_spec 8 len); [lia | reflexivity].
Qed.

Lemma process_input_header_out_of_bounds (rest : list byte) (len : Z) (s : state) :
  8 <= len -> in_bounds 4 size_bytes (FUZZ ++ rest) = false ->
  process_input order alloc (Some (FUZZ ++ rest)) len s = (Undefined, header_read s).
Proof.
  intros H8 Hin. unfold process_input.
  destruct (Z.eqb_spec len 0); [lia|]. unfold bind at 1.
  rewrite magic_ok_match by lia.
  destruct (Z.leb_spec 8 len); [|lia]. unfold bind at 1.
  rewrite load_size_t_miss by assumption. cbn [heap trace].
  unfold header_read, header_reads. rewrite <- !app_assoc. reflexivity.
Qed.

Lemma process_input_length_rejected (rest : list byte) (len : Z) (s : state) :
  let buf := FUZZ ++ rest in
  let data_len := decode order (slice 4 size_bytes buf) in
  8 <= len -> in_bounds 4 size_bytes buf = true ->
  (0 <? data_len) && (size_add 8 data_len <=? len) = false ->
  process_input order alloc (Some buf) len s = (Returned 1, header_read s).
Proof.
  intros buf data_len H8 Hin Hg. subst buf data_len. unfold process_input.
  destruct (Z.eqb_spec len 0); [lia|]. unfold bind at 1.
  rewrite magic_ok_match by lia.
  destruct (Z.leb_spec 8 len); [|lia]. unfold bind at 1.
  rewrite load_size_t_hit by assumption. cbn [heap trace].
  rewrite Hg.
  unfold header_read, header_reads. rewrite <- !app_assoc. reflexivity.
Qed.

Lemma process_input_alloc_failed (rest : list byte) (len : Z) (s : state) :
  let buf := FUZZ ++ rest in
  let data_len := decode order (slice 4 size_bytes buf) in
  8 <= len -> in_bounds 4 size_bytes buf = true ->
  (0 <? data_len) && (size_add 8 data_len <=? len) = true ->
  alloc (heap s) data_len = false ->
  process_input order alloc (Some buf) len s
  = (Returned 1,
     State (heap s) (trace s ++ header_reads ++ [EvMalloc data_len None])).
Proof.
  intros buf data_len H8 Hin Hg Ha. subst buf data_len. unfold process_input.
  destruct (Z.eqb_spec len 0); [lia|]. unfold bind at 1.
  rewrite magic_ok_match by lia.
  destruct (Z.leb_spec 8 len); [|lia]. unfold bind at 1.
  rewrite load_size_t_hit by assumption. cbn [heap trace].
  rewrite Hg. unfold bind at 1.
  rewrite malloc_refused by assumption. cbn [heap trace].
  unfold ret, header_reads. rewrite <- !app_assoc. reflexivity.
Qed.

Lemma process_input_copy_out_of_bounds (rest : list byte) (len : Z) (s : state) :
  let buf := FUZZ ++ rest in
  let data_len := decode order (slice 4 size_bytes buf) in
  let b := fresh (dom (heap s)) in
  8 <= len -> in_bounds 4 size_bytes buf = true ->
  (0 <? data_len) && (size_add 8 data_len <=? len) = true ->
  alloc (heap s) data_len = true ->
  in_bounds 8 data_len buf = false ->
  process_input order alloc (Some buf) len s
  = (Undefined,
     State (<[b := replicate (Z.to_nat data_len) None]> (heap s))
           (trace s ++ header_reads ++ [EvMalloc data_len (Some b); EvRead 8 data_len])).
Proof.
  intros buf data_len b H8 Hin Hg Ha Hc. subst buf data_len b. unfold process_input.
  destruct (Z.eqb_spec len 0); [lia|]. unfold bind at 1.
  rewrite magic_ok_match by lia.
  destruct (Z.leb_spec 8 len); [|lia]. unfold bind at 1.
  rewrite load_size_t_hit by assumption. cbn [heap trace].
  rewrite Hg. unfold bind at 1.
  rewrite malloc_granted by assumption. cbn [heap trace]. unfold bind at 1.
  rewrite memcpy_out_of_bounds by assumption. cbn [heap trace].
  unfold header_reads. rewrite <- !app_assoc. reflexivity.
Qed.

Lemma process_input_processed (rest : list byte) (len : Z) (s : state) :
  let buf := FUZZ ++ rest in
  let data_len := decode order (slice 4 size_bytes buf) in
  let b := fresh (dom (heap s)) in
  8 <= len -> in_bounds 4 size_bytes buf = true ->
  (0 <? data_len) && (size_add 8 data_len <=? len) = true ->
  alloc (heap s) data_len = true ->
  in_bounds 8 data_len buf = true ->
  process_input order alloc (Some buf) len s
  = (Returned 0,
     State (heap s)
           (trace s ++ header_reads
              ++ [EvMalloc data_len (Some b); EvRead 8 data_len;
                  EvWrite b 0 (slice 8 data_len buf); EvFree b])).
Proof.
  intros buf data_len b H8 Hin Hg Ha Hc. subst buf data_len b. unfold process_input.
  destruct (Z.eqb_spec len 0); [lia|]. unfold bind at 1.
  rewrite magic_ok_match by lia.
  destruct (Z.leb_spec 8 len); [|lia]. unfold bind at 1.
  rewrite load_size_t_hit by assumption. cbn [heap trace].
  rewrite Hg. unfold bind at 1.
  rewrite malloc_granted by assumption. cbn [heap trace]. unfold bind at 1.
  apply andb_true_iff in Hg as [Hpos _]. apply Z.ltb_lt in Hpos.
  erewrite memcpy_copies; cbn [heap trace];
    [ | assumption | apply lookup_insert_eq | unfold blen; rewrite length_replicate; lia ].
  unfold bind at 1.
  erewrite free_live by (cbn [heap]; apply lookup_insert_eq). cbn [heap trace].
  unfold ret, header_reads. rewrite scratch_released.
  rewrite <- !app_assoc. reflexivity.
Qed.

(** *** Every call *)

Lemma tag_reads_prefix (t : list event) : t `prefix_of` tag_reads -> Forall is_read t.
Proof.
  intros [k Hk]. assert (Hall : Forall is_read tag_reads) by (repeat constructor).
  rewrite Hk in Hall. by apply Forall_app in Hall as [? _].
Qed.

Lemma header_reads_are_reads : Forall is_read header_reads.
Proof. repeat constructor. Qed.

Lemma state_eta (s : state) : s = State (heap s) (trace s ++ []).
Proof. destruct s. cbn. by rewrite app_nil_r. Qed.

(** The outcome of a call, the heap it leaves and the operations it
    performs are determined by the arguments and the heap it starts on. *)
Lemma process_input_effect (input : option (list byte)) (len : Z) (h : gmap block cells) :
  exists o h' t,
    effect order input len h o h' t /\
    forall s, heap s = h ->
      process_input order alloc input len s = (o, State h' (trace s ++ t)).
Proof.
  destruct input as [buf|]; cycle 1.
  { exists (Returned (-1)), h, []. split; [constructor; auto|].
    intros s <-. rewrite process_input_null. apply (f_equal (pair _)), state_eta. }
  destruct (Z.eq_dec len 0) as [->|H0].
  { exists (Returned (-1)), h, []. split; [constructor; auto|].
    intros s <-. rewrite process_input_empty. apply (f_equal (pair _)), state_eta. }
  destruct (Z.lt_ge_cases len 4) as [H4|H4].
  { exists (Returned 1), h, []. split; [by constructor|].
    intros s <-. rewrite process_input_short by assumption.
    apply (f_equal (pair _)), state_eta. }
  destruct (decide (take 4 buf = FUZZ)) as [Hm|Hm]; cycle 1.
  { destruct (process_input_bad_magic buf len H4 Hm) as (o & t & Hrun & Hp & Ho).
    exists o, h, t. split; [|by intros s <-].
    destruct Ho as [-> | [-> Hb]].
    - apply eff_rejected; eauto using tag_reads_prefix.
    - eapply eff_undefined; [reflexivity|]. split; auto. }
  pose proof Hm as Hbuf. apply take_magic in Hbuf.
  destruct (Z.lt_ge_cases len 8) as [H8|H8].
  { exists (Returned 1), h, tag_reads. split; [constructor; auto; repeat constructor|].
    intros s <-. rewrite Hbuf. by apply process_input_no_header. }
  destruct (in_bounds 4 size_bytes buf) eqn:Hin; cycle 1.
  { exists Undefined, h, header_reads.
    split; [eapply eff_undefined; [reflexivity|]; split; auto 6|].
    intros s <-. rewrite Hbuf in Hin |- *. by apply process_input_header_out_of_bounds. }
  set (n := decode order (slice 4 size_bytes buf)).
  destruct ((0 <? n) && (size_add 8 n <=? len)) eqn:Hg; cycle 1.
  { exists (Returned 1), h, header_reads.
    split; [constructor; auto using header_reads_are_reads|].
    intros s <-. subst n. rewrite Hbuf in Hin, Hg |- *.
    by apply process_input_length_rejected. }
  destruct (alloc h n) eqn:Ha; cycle 1.
  { exists (Returned 1), h, (header_reads ++ [EvMalloc n None]).
    split; [apply eff_alloc_failed; auto using header_reads_are_reads|].
    intros s <-. subst n. rewrite Hbuf in Hin, Hg, Ha |- *.
    by apply process_input_alloc_failed. }
  destruct (in_bounds 8 n buf) eqn:Hc; cycle 1.
  { exists Undefined, (<[fresh (dom h) := replicate (Z.to_nat n) None]> h),
      (header_reads ++ [EvMalloc n (Some (fresh (dom h))); EvRead 8 n]).
    split; [eapply eff_undefined; [reflexivity|]; split; auto 8|].
    intros s <-. subst n. rewrite Hbuf in Hin, Hg, Ha, Hc |- *.
    by apply process_input_copy_out_of_bounds. }
  exists (Returned 0), h,
    (header_reads ++ [EvMalloc n (Some (fresh (dom h))); EvRead 8 n;
                      EvWrite (fresh (dom h)) 0 (slice 8 n buf);
                      EvFree (fresh (dom h))]).
  split; [apply eff_processed; auto using header_reads_are_reads|].
  intros s <-. subst n. rewrite Hbuf in Hin, Hg, Ha, Hc |- *.
  by apply process_input_processed.
Qed.

End MachineLemmas.


(** ** What the log of a rejected call contains *)

Lemma reads_only (t : list event) :
  Forall is_read t ->
  allocations t = [] /\ allocated t = [] /\ freed t = [] /\ writes t = [].
Proof.
  induction 1 as [|e t He _ (IH1 & IH2 & IH3 & IH4)]; [done|].
  destruct e; done.
Qed.

Lemma tag_reads_within (len : Z) (t : list event) :
  4 <= len -> t `prefix_of` tag_reads -> reads_within len t.
Proof.
  intros H4 [k Hk]. assert (Hall : reads_within len tag_reads).
  { unfold reads_within, tag_reads. repeat constructor; lia. }
  unfold reads_within in *. rewrite Hk in Hall. by apply Forall_app in Hall as [? _].
Qed.

(** ** The rejections *)

(** C4: a call with a null input pointer or with length 0 returns -1 and
    does nothing else (the state, and with it the log, is unchanged, so
    nothing is allocated); no call with a non-null pointer and a nonzero
    length returns -1. *)
Theorem process_input_null_or_empty (order : endianness) (alloc : allocator)
    (input : option (list byte)) (len : Z) (s : state) :
  input = None \/ len = 0 ->
  process_input order alloc input len s = (Returned (-1), s) /\
  (forall buf' len' s',
      len' <> 0 ->
      fst (process_input order alloc (Some buf') len' s') <> Returned (-1)).
Proof.
  intros Hne. split.
  - destruct Hne as [-> | ->]; [apply process_input_null | apply process_input_empty].
  - intros buf' len' s' Hlen'.
    destruct (process_input_effect order alloc (Some buf') len' (heap s'))
      as (o & h' & t & Heff & Hrun).
    rewrite (Hrun s' eq_refl). cbn [fst].
    inversion Heff as [Hn | | | |]; try discriminate.
    destruct Hn; congruence.
Qed.

Lemma process_input_null_or_empty_witness :
  (@None (list byte) = None \/ 7 = 0) /\
  process_input LittleEndian grant_all None 7 s0 = (Returned (-1), s0).
Proof.
  split; [left; reflexivity|].
  apply (process_input_null_or_empty LittleEndian grant_all None 7 s0).
  left; reflexivity.
Defined.

(** C5: an input shorter than 4 bytes, and an input of at least 4 bytes
    (an object that holds the [len] bytes announced) whose first 4 bytes are
    not F, U, Z, Z, is rejected (status -1 or 1, never 0); the call only
    reads tag bytes and asks for no allocation. *)
Theorem process_input_bad_tag (order : endianness) (alloc : allocator)
    (input : option (list byte)) (len : Z) (s : state) :
  len < 4 \/ (exists buf, input = Some buf /\ len <= blen buf /\ take 4 buf <> FUZZ) ->
  exists r t,
    process_input order alloc input len s = (Returned r, State (heap s) (trace s ++ t)) /\
    (r = -1 \/ r = 1) /\
    t `prefix_of` tag_reads /\
    allocations t = [].
Proof.
  intros H.
  assert (Hshort : len < 4 -> exists r t,
    process_input order alloc input len s = (Returned r, State (heap s) (trace s ++ t)) /\
    (r = -1 \/ r = 1) /\ t `prefix_of` tag_reads /\ allocations t = []).
  { intros H4. destruct input as [buf|]; [destruct (Z.eq_dec len 0) as [->|H0]|].
    - exists (-1), []. rewrite process_input_empty, <- state_eta.
      repeat split; auto. apply prefix_nil.
    - exists 1, []. rewrite process_input_short, <- state_eta by assumption.
      repeat split; auto. apply prefix_nil.
    - exists (-1), []. rewrite process_input_null, <- state_eta.
      repeat split; auto. apply prefix_nil. }
  destruct H as [H4 | (buf & -> & Hlen & Hm)]; [auto|].
  destruct (Z.lt_ge_cases len 4) as [H4|H4]; [auto|].
  destruct (process_input_bad_magic order alloc buf len H4 Hm) as (o & t & Hrun & Hp & Ho).
  destruct Ho as [-> | [_ Hb]]; [|lia].
  exists 1, t. rewrite Hrun. repeat split; auto.
  by apply reads_only, tag_reads_prefix.
Qed.

Lemma process_input_bad_tag_witness :
  (blen ["F"; "U"; "Z"; "z"; "A"]%byte < 4 \/
   exists buf, Some ["F"; "U"; "Z"; "z"; "A"]%byte = Some buf /\
               5 <= blen buf /\ take 4 buf <> FUZZ) /\
  exists r t,
    process_input LittleEndian grant_all (Some ["F"; "U"; "Z"; "z"; "A"]%byte) 5 s0
    = (Returned r, State (heap s0) (trace s0 ++ t)) /\
    (r = -1 \/ r = 1) /\ t `prefix_of` tag_reads /\ allocations t = [].
Proof.
  assert (H : exists buf, Some ["F"; "U"; "Z"; "z"; "A"]%byte = Some buf /\
                          5 <= blen buf /\ take 4 buf <> FUZZ).
  { eexists. split; [reflexivity|]. split; [vm_compute; discriminate | discriminate]. }
  split; [right; exact H|].
  apply (process_input_bad_tag LittleEndian grant_all _ 5 s0). right. exact H.
Defined.

(** C6: an input that starts with the tag but is shorter than 8 bytes is
    rejected; every read lies inside the first [len] bytes, the length field
    is not read, and nothing is allocated. *)
Theorem process_input_truncated_header (order : endianness) (alloc : allocator)
    (buf : list byte) (len : Z) (s : state) :
  take 4 buf = FUZZ -> len < 8 ->
  exists r t,
    process_input order alloc (Some buf) len s
    = (Returned r, State (heap s) (trace s ++ t)) /\
    (r = -1 \/ r = 1) /\
    reads_within len t /\
    (EvRead 4 size_bytes ∉ t) /\
    allocations t = [].
Proof.
  intros Hm H8. apply take_magic in Hm.
  destruct (Z.lt_ge_cases len 4) as [H4|H4].
  - destruct (Z.eq_dec len 0) as [->|H0].
    + exists (-1), []. rewrite process_input_empty, <- state_eta.
      repeat split; auto. { constructor. } apply not_elem_of_nil.
    + exists 1, []. rewrite process_input_short, <- state_eta by assumption.
      repeat split; auto. { constructor. } apply not_elem_of_nil.
  - exists 1, tag_reads. rewrite Hm, process_input_no_header by assumption.
    repeat split; auto.
    + apply tag_reads_within; [assumption | reflexivity].
    + unfold tag_reads, size_bytes. rewrite !elem_of_cons, elem_of_nil.
      intros [?|[?|[?|[?|[]]]]]; discriminate.
Qed.

Lemma process_input_truncated_header_witness :
  (take 4 (FUZZ ++ ["001"; "002"]%byte) = FUZZ /\ 6 < 8) /\
  exists r t,
    process_input LittleEndian grant_all (Some (FUZZ ++ ["001"; "002"]%byte)) 6 s0
    = (Returned r, State (heap s0) (trace s0 ++ t)) /\
    (r = -1 \/ r = 1) /\ reads_within 6 t /\ (EvRead 4 size_bytes ∉ t) /\
    allocations t = [].
Proof.
  split; [split; [reflexivity | lia]|].
  apply (process_input_truncated_header LittleEndian grant_all _ 6 s0); [reflexivity | lia].
Defined.

(** C7: an input with the tag, at least 8 bytes long, whose length field
    decodes to 0 is rejected with status 1 once the header has been read:
    nothing is allocated and nothing is copied. *)
Theorem process_input_zero_length (order : endianness) (alloc : allocator)
    (buf : list byte) (len : Z) (s : state) :
  take 4 buf = FUZZ -> 8 <= len ->
  in_bounds 4 size_bytes buf = true ->
  decode order (slice 4 size_bytes buf) = 0 ->
  process_input order alloc (Some buf) len s = (Returned 1, header_read s) /\
  allocations header_reads = [] /\ writes header_reads = [].
Proof.
  intros Hm H8 Hin Hz. apply take_magic in Hm. split; [|by split].
  rewrite Hm in Hin, Hz |- *. apply process_input_length_rejected; [assumption..|].
  cbv zeta. rewrite Hz. reflexivity.
Qed.

Lemma process_input_zero_length_witness :
  (take 4 (FUZZ ++ encode BigEndian 0 ++ ["A"]%byte) = FUZZ /\ 8 <= 13 /\
   in_bounds 4 size_bytes (FUZZ ++ encode BigEndian 0 ++ ["A"]%byte) = true /\
   decode BigEndian (slice 4 size_bytes (FUZZ ++ encode BigEndian 0 ++ ["A"]%byte)) = 0) /\
  process_input BigEndian grant_all (Some (FUZZ ++ encode BigEndian 0 ++ ["A"]%byte)) 13 s0
  = (Returned 1, header_read s0).
Proof.
  split; [repeat split; try reflexivity; lia|].
  apply (process_input_zero_length BigEndian grant_all _ 13 s0);
    [reflexivity | lia | reflexivity | reflexivity].
Defined.

(** ** The accepted input *)

(** C2, as the code has it: for an input that starts with the tag, holds the
    whole 8-byte length field, declares a nonzero length [n] and is at least
    [8 + n] bytes long, a call whose allocation is granted returns 0; it
    copies exactly the [n] input bytes at offsets 8 .. 8 + n - 1 into the
    scratch block, reads nothing outside the first [len] bytes, and leaves
    the heap as it found it. *)
Theorem process_input_well_formed (order : endianness) (alloc : allocator)
    (buf : list byte) (len n : Z) (s : state) :
  take 4 buf = FUZZ -> 12 <= len -> len <= blen buf ->
  decode order (slice 4 size_bytes buf) = n -> 0 < n -> 8 + n <= len ->
  alloc (heap s) n = true ->
  let b := fresh (dom (heap s)) in
  let t := header_reads
             ++ [EvMalloc n (Some b); EvRead 8 n; EvWrite b 0 (slice 8 n buf); EvFree b] in
  process_input order alloc (Some buf) len s = (Returned 0, State (heap s) (trace s ++ t)) /\
  writes t = [(b, 0, slice 8 n buf)] /\
  blen (slice 8 n buf) = n /\
  reads_within len t.
Proof.
  intros Hm H12 Hlen Hn Hpos Hfit Ha b t.
  assert (Hin : in_bounds 4 size_bytes buf = true).
  { unfold in_bounds, size_bytes. rewrite !andb_true_iff, !Z.leb_le. lia. }
  assert (Hc : in_bounds 8 n buf = true).
  { unfold in_bounds. rewrite !andb_true_iff, !Z.leb_le. lia. }
  pose proof (data_len_range order buf Hin) as Hr. rewrite Hn in Hr.
  assert (Hg : (0 <? n) && (size_add 8 n <=? len) = true).
  { rewrite andb_true_iff, Z.ltb_lt, Z.leb_le. split; [assumption|].
    unfold size_add. pose proof (Z.mod_le (8 + n) SIZE_MOD).
    unfold SIZE_MOD in *. lia. }
  repeat split.
  - subst b t n. apply take_magic in Hm. rewrite Hm in Hin, Hg, Ha, Hc |- *.
    apply process_input_processed; [lia | assumption..].
  - by apply blen_slice.
  - unfold reads_within, t, header_reads, tag_reads, size_bytes.
    repeat constructor; lia.
Qed.

Lemma process_input_well_formed_witness :
  (take 4 (sample_input LittleEndian) = FUZZ /\ 12 <= 15 /\
   15 <= blen (sample_input LittleEndian) /\
   decode LittleEndian (slice 4 size_bytes (sample_input LittleEndian)) = 3 /\
   0 < 3 /\ 8 + 3 <= 15 /\ grant_all (heap s0) 3 = true) /\
  process_input LittleEndian grant_all (Some (sample_input LittleEndian)) 15 s0
  = (Returned 0,
     State (heap s0)
       (trace s0 ++ header_reads
          ++ [EvMalloc 3 (Some (fresh (dom (heap s0)))); EvRead 8 3;
              EvWrite (fresh (dom (heap s0))) 0 (slice 8 3 (sample_input LittleEndian));
              EvFree (fresh (dom (heap s0)))])) /\
  slice 8 3 (sample_input LittleEndian) = ["000"; "000"; "000"]%byte.
Proof.
  split; [repeat split; try reflexivity; vm_compute; discriminate|].
  split; [|reflexivity].
  apply (process_input_well_formed LittleEndian grant_all _ 15 3 s0);
    try reflexivity; vm_compute; discriminate.
Defined.

(** C2, the sample call (the tag, the 8-byte encoding of 3, then A, B, C):
    the call succeeds, but the three bytes it copies from offset 8 are bytes
    of the length field, null in either byte order; the bytes A, B, C sit at
    offsets 12 to 14 and are not what is copied. *)
Lemma process_input_sample_copies_length_bytes :
  (fst (process_input LittleEndian grant_all (Some (sample_input LittleEndian)) 15 s0)
   = Returned 0 /\
   writes (trace (snd (process_input LittleEndian grant_all
                         (Some (sample_input LittleEndian)) 15 s0)))
   = [(1%positive, 0, ["000"; "000"; "000"]%byte)]) /\
  (fst (process_input BigEndian grant_all (Some (sample_input BigEndian)) 15 s0)
   = Returned 0 /\
   writes (trace (snd (process_input BigEndian grant_all
                         (Some (sample_input BigEndian)) 15 s0)))
   = [(1%positive, 0, ["000"; "000"; "000"]%byte)]) /\
  ~ (exists b off,
        writes (trace (snd (process_input LittleEndian grant_all
                              (Some (sample_input LittleEndian)) 15 s0)))
        = [(b, off, ["A"; "B"; "C"]%byte)]).
Proof.
  split; [|split].
  - split; vm_compute; reflexivity.
  - split; vm_compute; reflexivity.
  - intros (b & off & H). vm_compute in H. discriminate.
Qed.

(** ** The length check *)

(** A declared length that does not fit the input is turned down by the
    length check whenever [8 + data_len] is representable: the call returns
    1 and allocates nothing. *)
Lemma process_input_rejects_oversized (order : endianness) (alloc : allocator)
    (buf : list byte) (len : Z) (s : state) :
  take 4 buf = FUZZ -> 8 <= len ->
  in_bounds 4 size_bytes buf = true ->
  len < 8 + decode order (slice 4 size_bytes buf) <= SIZE_MAX ->
  process_input order alloc (Some buf) len s = (Returned 1, header_read s).
Proof.
  intros Hm H8 Hin Hbig. apply take_magic in Hm.
  rewrite Hm in Hin, Hbig |- *. apply process_input_length_rejected; [assumption..|].
  cbv zeta. apply andb_false_iff. right. apply Z.leb_gt.
  unfold size_add. rewrite Z.mod_small; [lia|].
  pose proof (data_len_range order _ Hin). unfold SIZE_MAX in *. lia.
Qed.



(** ** Every call *)

(** A call that returns, returns -1, 0 or 1, and it returns 1 when the
    allocator refuses the scratch block. *)
Lemma process_input_status (order : endianness) (alloc : allocator)
    (input : option (list byte)) (len r : Z) (s s' : state) :
  process_input order alloc input len s = (Returned r, s') ->
  r = -1 \/ r = 0 \/ r = 1.
Proof.
  intros Hrun.
  destruct (process_input_effect order alloc input len (heap s))
    as (o & h' & t & Heff & Hrun').
  rewrite (Hrun' s eq_refl) in Hrun. injection Hrun as -> _.
  inversion Heff; auto.
Qed.

(** A call returns when the object holds the [len] bytes it is said to hold
    and, for an input with the tag and [len >= 8], the whole length field,
    with a declared length for which [8 + data_len] is representable. *)
Lemma process_input_returns (order : endianness) (alloc : allocator)
    (buf : list byte) (len : Z) (s : state) :
  len <= blen buf ->
  (take 4 buf = FUZZ -> 8 <= len ->
   in_bounds 4 size_bytes buf = true /\
   8 + decode order (slice 4 size_bytes buf) <= SIZE_MAX) ->
  exists r s',
    process_input order alloc (Some buf) len s = (Returned r, s') /\
    (r = -1 \/ r = 0 \/ r = 1).
Proof.
  intros Hlen Hsafe.
  destruct (process_input_effect order alloc (Some buf) len (heap s))
    as (o & h' & t & Heff & Hrun).
  specialize (Hrun s eq_refl).
  destruct o as [r|].
  { exists r, (State h' (trace s ++ t)). split; [assumption|].
    eapply process_input_status, Hrun. }
  exfalso. inversion Heff as [ | | | | buf' h'' t' [= <-] (H4 & Hf)]; subst.
  destruct Hf as [Hb | (Hm & H8 & Hf)]; [lia|].
  destruct (Hsafe Hm H8) as [Hin Hfit].
  destruct Hf as [Hf | Hf]; [congruence|]. cbv zeta in Hf.
  destruct Hf as [Hg Hc].
  apply andb_true_iff in Hg as [Hpos Hg]. apply Z.ltb_lt in Hpos. apply Z.leb_le in Hg.
  unfold size_add in Hg. rewrite Z.mod_small in Hg by (unfold SIZE_MAX in *; lia).
  unfold in_bounds in Hc. rewrite !andb_false_iff, !Z.leb_gt in Hc. lia.
Qed.

(** The three statuses on the sample input: success, the generic status
    when the allocator refuses, and -1 for the empty input. *)
Example process_input_statuses :
  fst (process_input LittleEndian grant_all (Some (sample_input LittleEndian)) 15 s0)
  = Returned 0 /\
  process_input LittleEndian refuse_all (Some (sample_input LittleEndian)) 15 s0
  = (Returned 1, State ∅ (header_reads ++ [EvMalloc 3 None])) /\
  process_input LittleEndian grant_all (Some (sample_input LittleEndian)) 0 s0
  = (Returned (-1), s0).
Proof. repeat split; vm_compute; reflexivity. Qed.

(** C3: where the code departs from the claim. The input is the tag followed
    by four more bytes, [len = 8]: the check [len >= 8] passes and the 8-byte
    length field is read at offsets 4 to 11, four bytes past the end of the
    input. The call has no defined result, for any allocator. *)
Theorem process_input_header_overread (order : endianness) (alloc : allocator) (s : state) :
  take 4 truncated_input = FUZZ /\
  blen truncated_input = 8 /\
  process_input order alloc (Some truncated_input) 8 s = (Undefined, header_read s) /\
  ~ reads_within 8 header_reads.
Proof.
  repeat split.
  - apply (process_input_header_out_of_bounds order alloc _ 8 s); [lia | reflexivity].
  - unfold reads_within, header_reads, tag_reads, size_bytes.
    rewrite Forall_app, Forall_singleton. cbn. lia.
Qed.

(** A call that returns leaves the machine in a state from which the same
    call on the same object returns the same value: the second result does
    not depend on the first call having happened. The allocator decides from
    the live blocks and the size, and the first call leaves no block
    behind. *)
Theorem process_input_repeatable (order : endianness) (alloc : allocator)
    (input : option (list byte)) (len r : Z) (s s1 : state) :
  process_input order alloc input len s = (Returned r, s1) ->
  exists s2, process_input order alloc input len s1 = (Returned r, s2).
Proof.
  intros Hrun.
  destruct (process_input_effect order alloc input len (heap s))
    as (o & h' & t & Heff & Hrun').
  rewrite (Hrun' s eq_refl) in Hrun. injection Hrun as -> <-.
  assert (h' = heap s) as -> by (inversion Heff; reflexivity).
  eexists. apply (Hrun' (State (heap s) (trace s ++ t))). reflexivity.
Qed.

Lemma process_input_repeatable_witness :
  process_input LittleEndian grant_all (Some (sample_input LittleEndian)) 15 s0
  = (Returned 0, State ∅ sample_log) /\
  exists s2,
    process_input LittleEndian grant_all (Some (sample_input LittleEndian)) 15
      (State ∅ sample_log)
    = (Returned 0, s2).
Proof.
  assert (H : process_input LittleEndian grant_all (Some (sample_input LittleEndian)) 15 s0
              = (Returned 0, State ∅ sample_log))
    by (vm_compute; reflexivity).
  split; [exact H|].
  exact (process_input_repeatable LittleEndian grant_all _ 15 0 s0 _ H).
Defined.

(** A call that returns leaves the heap exactly as it found it. It asks for
    at most one block, frees the block it was given, and writes only to that
    block, which was not live before the call; the input object is passed by
    value to the model and has no write operation. *)
Theorem process_input_frame (order : endianness) (alloc : allocator)
    (input : option (list byte)) (len r : Z) (s s' : state) :
  process_input order alloc input len s = (Returned r, s') ->
  heap s' = heap s /\
  exists t,
    trace s' = trace s ++ t /\
    (length (allocations t) <= 1)%nat /\
    freed t = allocated t /\
    Forall (fun w => w.1.1 ∈ allocated t /\ w.1.1 ∉ dom (heap s)) (writes t).
Proof.
  intros Hrun.
  destruct (process_input_effect order alloc input len (heap s))
    as (o & h' & t & Heff & Hrun').
  rewrite (Hrun' s eq_refl) in Hrun. clear Hrun'.
  assert (Happ : forall rd tl,
             Forall is_read rd ->
             allocations (rd ++ tl) = allocations tl /\
             allocated (rd ++ tl) = allocated tl /\
             freed (rd ++ tl) = freed tl /\
             writes (rd ++ tl) = writes tl).
  { intros rd tl (H1 & H2 & H3 & H4)%reads_only.
    unfold allocations, allocated, freed, writes in *.
    rewrite !omap_app, H1, H2, H3, H4. done. }
  destruct Heff as [Hn | rd Hi Hl Hrd | rd n Hi Hl Hrd | rd n data Hi Hl Hrd | ];
    [| | | |discriminate]; injection Hrun as <- <-; cbn [heap trace];
    (split; [reflexivity|]); eexists; (split; [reflexivity|]).
  - repeat split; auto; by constructor.
  - destruct (reads_only rd Hrd) as (-> & -> & -> & ->).
    repeat split; auto; by constructor.
  - destruct (Happ rd [EvMalloc n None] Hrd) as (-> & -> & -> & ->).
    repeat split; auto; by constructor.
  - destruct (Happ rd [EvMalloc n (Some (fresh (dom (heap s)))); EvRead 8 n;
                       EvWrite (fresh (dom (heap s))) 0 data;
                       EvFree (fresh (dom (heap s)))] Hrd) as (-> & -> & -> & ->).
    repeat split; auto. cbn. constructor; [|constructor].
    cbn. split; [apply list_elem_of_here | apply is_fresh].
Qed.

Lemma process_input_frame_witness :
  process_input BigEndian grant_all (Some (sample_input BigEndian)) 15 s0
  = (Returned 0, State ∅ sample_log) /\
  heap (State ∅ sample_log) = heap s0 /\
  exists t,
    trace (State ∅ sample_log) = trace s0 ++ t /\
    (length (allocations t) <= 1)%nat /\
    freed t = allocated t /\
    Forall (fun w => w.1.1 ∈ allocated t /\ w.1.1 ∉ dom (heap s0)) (writes t).
Proof.
  assert (H : process_input BigEndian grant_all (Some (sample_input BigEndian)) 15 s0
              = (Returned 0, State ∅ sample_log))
    by (vm_compute; reflexivity).
  split; [exact H|].
  exact (process_input_frame BigEndian grant_all _ 15 0 s0 _ H).
Defined.

(** ** Inputs that end inside the length field *)

(** C8: where the code departs from the claim. The input is 11 bytes long,
    the tag and the first 7 bytes of a length field, and [len = 11]: the
    check [len >= 8] passes and the 8-byte field is read at offsets 4 to
    11, one byte past the input. With the same 11 input bytes and the same
    [len], the call returns 0 or 1 according to the byte that follows the
    input in memory, and it has no defined result when the object ends with
    the input. *)
Theorem process_input_result_depends_on_byte_past_input (order : endianness) :
  blen (clipped_input order) = 11 /\
  take 11 (FUZZ ++ encode order 1) = clipped_input order /\
  take 11 (clipped_input order ++ ["200"%byte]) = clipped_input order /\
  fst (process_input order grant_all (Some (FUZZ ++ encode order 1)) 11 s0)
  = Returned 0 /\
  fst (process_input order grant_all (Some (clipped_input order ++ ["200"%byte])) 11 s0)
  = Returned 1 /\
  fst (process_input order grant_all (Some (clipped_input order)) 11 s0)
  = Undefined.
Proof.
  destruct order; repeat split; vm_compute; reflexivity.
Qed.

(** C9: where the code departs from the claim. For every object shorter than
    12 bytes that starts with the tag, a call with [len >= 8] reads the
    length field past the end of the object: the call has no defined result,
    so the caller is not handed a status. *)
Theorem process_input_short_object_undefined (order : endianness) (alloc : allocator)
    (buf : list byte) (len : Z) (s : state) :
  take 4 buf = FUZZ -> 8 <= len -> blen buf < 12 ->
  process_input order alloc (Some buf) len s = (Undefined, header_read s) /\
  ~ reads_within (blen buf) header_reads.
Proof.
  intros Hm H8 Hshort. split.
  - apply take_magic in Hm. rewrite Hm in Hshort |- *.
    apply process_input_header_out_of_bounds; [assumption|].
    unfold in_bounds, size_bytes. rewrite !andb_false_iff, !Z.leb_gt. lia.
  - unfold reads_within, header_reads, tag_reads, size_bytes.
    rewrite Forall_app, Forall_singleton. cbn. lia.
Qed.

Lemma process_input_short_object_undefined_witness :
  (take 4 (FUZZ ++ ["A"; "B"; "C"; "D"; "E"; "F"]%byte) = FUZZ /\ 8 <= 10 /\
   blen (FUZZ ++ ["A"; "B"; "C"; "D"; "E"; "F"]%byte) < 12) /\
  process_input BigEndian grant_all
    (Some (FUZZ ++ ["A"; "B"; "C"; "D"; "E"; "F"]%byte)) 10 s0
  = (Undefined, header_read s0).
Proof.
  assert (H1 : take 4 (FUZZ ++ ["A"; "B"; "C"; "D"; "E"; "F"]%byte) = FUZZ) by reflexivity.
  assert (H2 : 8 <= 10) by lia.
  assert (H3 : blen (FUZZ ++ ["A"; "B"; "C"; "D"; "E"; "F"]%byte) < 12) by reflexivity.
  split; [auto|].
  exact (proj1 (process_input_short_object_undefined BigEndian grant_all _ 10 s0 H1 H2 H3)).
Defined.

(** ** safe_copy_string *)

Lemma strncpy_bytes_defined (src : list byte) (n : nat) :
  "000"%byte ∈ src \/ (n <= length src)%nat ->
  exists bs, strncpy_bytes src n = Some bs /\ length bs = n.
Proof.
  revert src. induction n as [|n IH]; intros src Hsrc; [exists []; split; reflexivity|].
  destruct src as [|c src]; cbn [strncpy_bytes].
  { destruct Hsrc as [Hin | Hlen]; [by apply elem_of_nil in Hin | cbn in Hlen; lia]. }
  destruct (Byte.eqb c "000") eqn:Hc.
  { eexists. split; [reflexivity|]. apply length_replicate. }
  destruct (IH src) as (bs & -> & Hbs).
  { destruct Hsrc as [Hin | Hlen]; [left | right; cbn in Hlen; lia].
    apply elem_of_cons in Hin as [<- | Hin]; [|assumption].
    rewrite (Byte.byte_dec_lb eq_refl) in Hc. discriminate. }
  exists (c :: bs). split; [reflexivity | cbn; by rewrite Hbs].
Qed.

(** What [strncpy] stores: the string, cut or padded with null bytes to [n]. *)
Lemma strncpy_bytes_spec (src bs : list byte) (n m : nat) :
  (n <= m)%nat ->
  strncpy_bytes src n = Some bs ->
  bs = take n (c_string src ++ replicate m "000"%byte).
Proof.
  revert src bs m. induction n as [|n IH]; intros src bs m Hm Hrun.
  { injection Hrun as <-. reflexivity. }
  destruct src as [|c src]; cbn [strncpy_bytes c_string] in *; [discriminate|].
  destruct (Byte.eqb c "000") eqn:Hc.
  - injection Hrun as <-. cbn [app]. rewrite take_replicate, Nat.min_l by lia. reflexivity.
  - destruct (strncpy_bytes src n) as [bs'|] eqn:Hbs'; [|discriminate].
    injection Hrun as <-. cbn. f_equal. apply IH; [lia | assumption].
Qed.

(** C10: with [dest] and [src] non-null and [0 < dest_size], for a
    destination object of at least [dest_size] bytes and a readable source,
    the call changes only [dest[0 .. dest_size - 1]]: the object keeps its
    size and its bytes from [dest_size] on, [dest[dest_size - 1]] is the
    null byte, and the [dest_size - 1] bytes before it are the source string
    cut or padded with null bytes. With [dest] null, [src] null or
    [dest_size = 0] the call returns with [dest] as it was. *)
Theorem safe_copy_string_bounded (d s : list byte) (dest_size : Z) :
  0 < dest_size <= SIZE_MAX -> dest_size <= blen d ->
  src_readable s (dest_size - 1) ->
  (exists d',
      safe_copy_string (Some d) (Some s) dest_size = Returned (Some d') /\
      length d' = length d /\
      drop (Z.to_nat dest_size) d' = drop (Z.to_nat dest_size) d /\
      d' !! Z.to_nat (dest_size - 1) = Some "000"%byte /\
      take (Z.to_nat (dest_size - 1)) d'
      = take (Z.to_nat (dest_size - 1))
          (c_string s ++ replicate (Z.to_nat (dest_size - 1)) "000"%byte)) /\
  (forall dest src size,
      dest = None \/ src = None \/ size = 0 ->
      safe_copy_string dest src size = Returned dest).
Proof.
  intros Hsize Hdest Hsrc. split; cycle 1.
  { intros dest src size [-> | [-> | ->]]; [reflexivity | by destruct dest |].
    by destruct dest, src. }
  unfold safe_copy_string, strncpy, store.
  destruct (Z.eqb_spec dest_size 0); [lia|].
  assert (Hsub : size_sub dest_size 1 = dest_size - 1).
  { unfold size_sub. apply Z.mod_small. unfold SIZE_MAX in *. lia. }
  rewrite Hsub. set (k := Z.to_nat (dest_size - 1)).
  assert (Hk : Z.to_nat dest_size = S k) by lia.
  assert (Hlen : (S k <= length d)%nat) by (unfold blen in *; lia).
  assert (Hin : in_bounds 0 (dest_size - 1) d = true).
  { unfold in_bounds, blen in *. rewrite !andb_true_iff, !Z.leb_le. lia. }
  rewrite Hin.
  destruct (strncpy_bytes_defined s k) as (bs & Hbs & Hbslen).
  { destruct Hsrc as [?|?]; [by left | right; unfold blen in *; lia]. }
  rewrite Hbs.
  assert (Hd1 : length (bs ++ drop k d) = length d).
  { rewrite length_app, length_drop. lia. }
  assert (Hin1 : in_bounds (dest_size - 1) 1 (bs ++ drop k d) = true).
  { unfold in_bounds, blen. rewrite Hd1, !andb_true_iff, !Z.leb_le. lia. }
  rewrite Hin1. eexists. split; [reflexivity|]. fold k.
  split; [by rewrite length_insert|].
  split; [|split].
  - rewrite Hk, drop_insert_lt by lia.
    rewrite drop_app_ge, Hbslen, drop_drop by lia. f_equal. lia.
  - apply list_lookup_insert_eq. lia.
  - rewrite take_insert_ge by lia. rewrite take_app_length' by done.
    eapply strncpy_bytes_spec; [|eassumption]. lia.
Qed.

Lemma safe_copy_string_bounded_witness :
  (0 < 4 <= SIZE_MAX /\ 4 <= blen ["x"; "x"; "x"; "x"; "x"; "x"]%byte /\
   src_readable ["h"; "i"; "000"]%byte (4 - 1)) /\
  exists d',
    safe_copy_string (Some ["x"; "x"; "x"; "x"; "x"; "x"]%byte)
                     (Some ["h"; "i"; "000"]%byte) 4
    = Returned (Some d') /\
    length d' = length ["x"; "x"; "x"; "x"; "x"; "x"]%byte /\
    drop (Z.to_nat 4) d' = drop (Z.to_nat 4) ["x"; "x"; "x"; "x"; "x"; "x"]%byte /\
    d' !! Z.to_nat (4 - 1) = Some "000"%byte /\
    take (Z.to_nat (4 - 1)) d'
    = take (Z.to_nat (4 - 1))
        (c_string ["h"; "i"; "000"]%byte ++ replicate (Z.to_nat (4 - 1)) "000"%byte).
Proof.
  assert (H1 : 0 < 4 <= SIZE_MAX) by (vm_compute; split; [reflexivity | discriminate]).
  assert (H2 : 4 <= blen ["x"; "x"; "x"; "x"; "x"; "x"]%byte) by (vm_compute; discriminate).
  assert (H3 : src_readable ["h"; "i"; "000"]%byte (4 - 1)).
  { right. vm_compute. discriminate. }
  split; [auto|].
  exact (proj1 (safe_copy_string_bounded _ _ 4 H1 H2 H3)).
Defined.

(** * Further properties *)

(** ** process_input, path by path *)

Lemma process_input_path (order : endianness) (alloc : allocator)
    (buf : list byte) (len : Z) (s : state) :
  len <> 0 ->
  exists o h' t,
    path order alloc buf len (heap s) o h' t /\
    process_input order alloc (Some buf) len s = (o, State h' (trace s ++ t)).
Proof.
  intros H0.
  destruct (Z.lt_ge_cases len 4) as [H4|H4].
  { exists (Returned 1), (heap s), []. split; [by constructor|].
    rewrite process_input_short by assumption. apply (f_equal (pair _)), state_eta. }
  destruct (decide (take 4 buf = FUZZ)) as [Hm|Hm]; cycle 1.
  { destruct (process_input_bad_magic order alloc buf len H4 Hm)
      as (o & t & Hrun & Hp & Ho).
    exists o, (heap s), t. split; [|apply Hrun].
    destruct Ho as [-> | [-> Hb]]; [by apply path_bad_magic|].
    by apply path_magic_out_of_bounds. }
  pose proof Hm as Hbuf. apply take_magic in Hbuf.
  destruct (Z.lt_ge_cases len 8) as [H8|H8].
  { exists (Returned 1), (heap s), tag_reads. split; [by constructor|].
    rewrite Hbuf. by apply process_input_no_header. }
  destruct (in_bounds 4 size_bytes buf) eqn:Hin; cycle 1.
  { exists Undefined, (heap s), header_reads. split; [by constructor|].
    rewrite Hbuf in Hin |- *. by apply process_input_header_out_of_bounds. }
  destruct (length_check order buf len) eqn:Hg; cycle 1.
  { exists (Returned 1), (heap s), header_reads. split; [by constructor|].
    unfold length_check, declared_length in Hg. rewrite Hbuf in Hin, Hg |- *.
    by apply process_input_length_rejected. }
  destruct (alloc (heap s) (declared_length order buf)) eqn:Ha; cycle 1.
  { eexists (Returned 1), (heap s), _. split; [by apply path_alloc_failed|].
    unfold length_check, declared_length in *. rewrite Hbuf in Hin, Hg, Ha |- *.
    by apply process_input_alloc_failed. }
  destruct (in_bounds 8 (declared_length order buf) buf) eqn:Hc; cycle 1.
  { eexists Undefined, _, _. split; [by apply path_copy_out_of_bounds|].
    unfold length_check, declared_length in *. rewrite Hbuf in Hin, Hg, Ha, Hc |- *.
    by apply process_input_copy_out_of_bounds. }
  eexists (Returned 0), (heap s), _. split; [by apply path_processed|].
  unfold copy_log, length_check, declared_length in *.
  rewrite Hbuf in Hin, Hg, Ha, Hc |- *.
  by apply process_input_processed.
Qed.

Lemma length_check_exact (order : endianness) (buf : list byte) (len : Z) :
  in_bounds 4 size_bytes buf = true ->
  8 + declared_length order buf <= SIZE_MAX ->
  length_check order buf len = true <->
  0 < declared_length order buf /\ 8 + declared_length order buf <= len.
Proof.
  intros Hin Hfit. pose proof (data_len_range order buf Hin) as Hr.
  fold (declared_length order buf) in Hr.
  unfold length_check, size_add.
  rewrite andb_true_iff, Z.ltb_lt, Z.leb_le, Z.mod_small; [done|].
  unfold SIZE_MAX in *. lia.
Qed.

Lemma in_bounds_true {A} (off n : Z) (bs : list A) :
  in_bounds off n bs = true <-> 0 <= off /\ 0 <= n /\ off + n <= blen bs.
Proof. unfold in_bounds. rewrite !andb_true_iff, !Z.leb_le. tauto. Qed.

Lemma in_bounds_false {A} (off n : Z) (bs : list A) :
  0 <= off -> 0 <= n -> in_bounds off n bs = false <-> blen bs < off + n.
Proof.
  intros Hoff Hn. unfold in_bounds. rewrite !andb_false_iff, !Z.leb_gt. lia.
Qed.

(** The call returns 0 exactly for the inputs that start with the tag, hold
    the length field, declare a nonzero length [n] with [8 + n <= len] in
    exact arithmetic, have those [8 + n] bytes in the object, and are granted
    the scratch block: a length that only passes the wrapped check never
    yields status 0. *)
Theorem process_input_success_iff (order : endianness) (alloc : allocator)
    (buf : list byte) (len : Z) (s : state) :
  blen buf <= SIZE_MAX ->
  fst (process_input order alloc (Some buf) len s) = Returned 0 <->
  take 4 buf = FUZZ /\ 8 <= len /\ in_bounds 4 size_bytes buf = true /\
  0 < declared_length order buf /\
  8 + declared_length order buf <= len /\
  8 + declared_length order buf <= blen buf /\
  alloc (heap s) (declared_length order buf) = true.
Proof.
  intros Hsize. split.
  - intros Hrun. destruct (Z.eq_dec len 0) as [->|H0].
    { rewrite process_input_empty in Hrun. discriminate. }
    destruct (process_input_path order alloc buf len s H0) as (o & h' & t & Hp & Heq).
    rewrite Heq in Hrun. cbn [fst] in Hrun. subst o.
    inversion Hp as [ | | | | | | | | Hm H8 Hin Hg Ha Hc]; subst.
    apply in_bounds_true in Hc as (_ & _ & Hc).
    apply length_check_exact in Hg as [Hpos Hfit]; [|assumption|lia].
    repeat split; assumption.
  - intros (Hm & H8 & Hin & Hpos & Hfit & Hobj & Ha).
    assert (Hg : length_check order buf len = true).
    { apply length_check_exact; [assumption | lia | auto]. }
    assert (Hc : in_bounds 8 (declared_length order buf) buf = true).
    { apply in_bounds_true. lia. }
    apply take_magic in Hm. unfold length_check, declared_length in *.
    rewrite Hm in Hin, Hg, Ha, Hc |- *.
    by rewrite process_input_processed.
Qed.

Lemma process_input_success_iff_witness :
  blen (sample_input LittleEndian) <= SIZE_MAX /\
  (fst (process_input LittleEndian grant_all (Some (sample_input LittleEndian)) 15 s0)
   = Returned 0 <->
   take 4 (sample_input LittleEndian) = FUZZ /\ 8 <= 15 /\
   in_bounds 4 size_bytes (sample_input LittleEndian) = true /\
   0 < declared_length LittleEndian (sample_input LittleEndian) /\
   8 + declared_length LittleEndian (sample_input LittleEndian) <= 15 /\
   8 + declared_length LittleEndian (sample_input LittleEndian)
   <= blen (sample_input LittleEndian) /\
   grant_all (heap s0) (declared_length LittleEndian (sample_input LittleEndian)) = true).
Proof.
  assert (H : blen (sample_input LittleEndian) <= SIZE_MAX) by (vm_compute; discriminate).
  split; [exact H|].
  apply (process_input_success_iff LittleEndian grant_all _ 15 s0 H).
Defined.

(** For an object that holds the [len] bytes announced, the call is
    undefined exactly when the input starts with the tag, [len >= 8], and
    either the object is shorter than the 12 bytes of tag and length field,
    or the declared length is [2^64 - 8] or more and the scratch block is
    granted. *)
Theorem process_input_undefined_iff (order : endianness) (alloc : allocator)
    (buf : list byte) (len : Z) (s : state) :
  len <= blen buf <= SIZE_MAX ->
  fst (process_input order alloc (Some buf) len s) = Undefined <->
  take 4 buf = FUZZ /\ 8 <= len /\
  (blen buf < 12 \/
   (SIZE_MOD - 8 <= declared_length order buf /\
    alloc (heap s) (declared_length order buf) = true)).
Proof.
  intros [Hlen Hsize]. split.
  - intros Hrun. destruct (Z.eq_dec len 0) as [->|H0].
    { rewrite process_input_empty in Hrun. discriminate. }
    destruct (process_input_path order alloc buf len s H0) as (o & h' & t & Hp & Heq).
    rewrite Heq in Hrun. cbn [fst] in Hrun. subst o.
    inversion Hp as [ | | ? H4 Hb | | Hm H8 Hin | | | Hm H8 Hin Hg Ha Hc | ]; subst.
    + lia.
    + apply in_bounds_false in Hin; [|done..]. unfold size_bytes in Hin.
      repeat split; auto; left; lia.
    + repeat split; auto. right. split; [|assumption].
      pose proof (data_len_range order buf Hin) as Hr.
      fold (declared_length order buf) in Hr.
      apply in_bounds_false in Hc; [|lia..].
      destruct (Z.le_gt_cases (SIZE_MOD - 8) (declared_length order buf)); [assumption|].
      apply length_check_exact in Hg as [Hpos Hfit];
        [lia | assumption | unfold SIZE_MAX; lia].
  - intros (Hm & H8 & Hbad).
    destruct (in_bounds 4 size_bytes buf) eqn:Hin; cycle 1.
    { apply take_magic in Hm. rewrite Hm in Hin |- *.
      by rewrite process_input_header_out_of_bounds. }
    apply in_bounds_true in Hin as Hin'. unfold size_bytes in Hin'.
    destruct Hbad as [Hshort | [Hbig Ha]]; [lia|].
    pose proof (data_len_range order buf Hin) as Hr.
    fold (declared_length order buf) in Hr.
    assert (Hg : length_check order buf len = true).
    { unfold length_check, size_add.
      rewrite andb_true_iff, Z.ltb_lt, Z.leb_le. unfold SIZE_MAX, SIZE_MOD in *.
      split; [lia|].
      replace (8 + declared_length order buf)
        with ((8 + declared_length order buf - 2 ^ 64) + 1 * 2 ^ 64) by lia.
      rewrite Z.mod_add, Z.mod_small by lia. lia. }
    assert (Hc : in_bounds 8 (declared_length order buf) buf = false).
    { apply in_bounds_false; unfold SIZE_MAX, SIZE_MOD in *; lia. }
    apply take_magic in Hm. unfold length_check, declared_length in *.
    rewrite Hm in Hin, Hg, Ha, Hc |- *.
    by rewrite process_input_copy_out_of_bounds.
Qed.

Lemma process_input_undefined_iff_witness :
  8 <= blen truncated_input <= SIZE_MAX /\
  (fst (process_input LittleEndian refuse_all (Some truncated_input) 8 s0) = Undefined <->
   take 4 truncated_input = FUZZ /\ 8 <= 8 /\
   (blen truncated_input < 12 \/
    (SIZE_MOD - 8 <= declared_length LittleEndian truncated_input /\
     refuse_all (heap s0) (declared_length LittleEndian truncated_input) = true))).
Proof.
  assert (H : 8 <= blen truncated_input <= SIZE_MAX)
    by (vm_compute; split; discriminate).
  split; [exact H|].
  apply (process_input_undefined_iff LittleEndian refuse_all _ 8 s0 H).
Defined.

(** A call that returns on an input shorter than 8 bytes or of at least 12
    bytes has read only inside the first [len] bytes: the tag bytes, the
    length field, and on success the [n] payload bytes from offset 8. *)
Theorem process_input_reads_in_bounds (order : endianness) (alloc : allocator)
    (buf : list byte) (len r : Z) (s s' : state) :
  blen buf <= SIZE_MAX -> len < 8 \/ 12 <= len ->
  process_input order alloc (Some buf) len s = (Returned r, s') ->
  exists t, trace s' = trace s ++ t /\ reads_within len t.
Proof.
  intros Hsize Hlen Hrun. destruct (Z.eq_dec len 0) as [->|H0].
  { rewrite process_input_empty in Hrun. injection Hrun as _ <-.
    exists []. split; [by rewrite app_nil_r | constructor]. }
  destruct (process_input_path order alloc buf len s H0) as (o & h' & t & Hp & Heq).
  rewrite Heq in Hrun. injection Hrun as -> <-. exists t. split; [reflexivity|].
  assert (Hhdr : 12 <= len -> reads_within len header_reads).
  { intros H12. unfold reads_within, header_reads, tag_reads, size_bytes.
    repeat constructor; lia. }
  inversion Hp as [ | ? H4 | | | | Hm H8 | Hm H8 | | Hm H8 Hin Hg Ha Hc ]; subst.
  - constructor.
  - by apply tag_reads_within.
  - apply tag_reads_within; [lia | reflexivity].
  - apply Hhdr. lia.
  - apply Forall_app. split; [apply Hhdr; lia | by repeat constructor].
  - apply in_bounds_true in Hc as (_ & _ & Hc).
    apply length_check_exact in Hg as [Hpos Hfit]; [|assumption|lia].
    apply Forall_app. split; [apply Hhdr; lia|].
    unfold copy_log. repeat constructor; lia.
Qed.

Lemma process_input_reads_in_bounds_witness :
  (blen (sample_input BigEndian) <= SIZE_MAX /\ (15 < 8 \/ 12 <= 15) /\
   process_input BigEndian grant_all (Some (sample_input BigEndian)) 15 s0
   = (Returned 0, State ∅ sample_log)) /\
  exists t, trace (State ∅ sample_log) = trace s0 ++ t /\ reads_within 15 t.
Proof.
  assert (H1 : blen (sample_input BigEndian) <= SIZE_MAX) by (vm_compute; discriminate).
  assert (H2 : 15 < 8 \/ 12 <= 15) by (right; lia).
  assert (H3 : process_input BigEndian grant_all (Some (sample_input BigEndian)) 15 s0
               = (Returned 0, State ∅ sample_log)) by (vm_compute; reflexivity).
  split; [auto|].
  exact (process_input_reads_in_bounds BigEndian grant_all _ 15 0 s0 _ H1 H2 H3).
Defined.

(** When the allocator refuses the scratch block of a well-formed input, the
    call returns 1, the status of a malformed input; the heap is unchanged
    and the log ends with the refused request: nothing is copied. *)
Theorem process_input_allocation_refused (order : endianness) (alloc : allocator)
    (buf : list byte) (len : Z) (s : state) :
  take 4 buf = FUZZ -> 12 <= len <= blen buf ->
  0 < declared_length order buf -> 8 + declared_length order buf <= len ->
  alloc (heap s) (declared_length order buf) = false ->
  process_input order alloc (Some buf) len s
  = (Returned 1,
     State (heap s)
       (trace s ++ header_reads ++ [EvMalloc (declared_length order buf) None])) /\
  writes (header_reads ++ [EvMalloc (declared_length order buf) None]) = [].
Proof.
  intros Hm Hlen Hpos Hfit Ha. split; [|reflexivity].
  assert (Hin : in_bounds 4 size_bytes buf = true).
  { apply in_bounds_true. unfold size_bytes. lia. }
  pose proof (data_len_range order buf Hin) as Hr.
  fold (declared_length order buf) in Hr.
  assert (Hg : length_check order buf len = true).
  { unfold length_check, size_add. rewrite andb_true_iff, Z.ltb_lt, Z.leb_le.
    split; [assumption|].
    pose proof (Z.mod_le (8 + declared_length order buf) SIZE_MOD).
    unfold SIZE_MOD in *. lia. }
  apply take_magic in Hm. unfold length_check, declared_length in *.
  rewrite Hm in Hin, Hg, Ha |- *. apply process_input_alloc_failed; [lia | assumption..].
Qed.

Lemma process_input_allocation_refused_witness :
  (take 4 (sample_input LittleEndian) = FUZZ /\
   12 <= 15 <= blen (sample_input LittleEndian) /\
   0 < declared_length LittleEndian (sample_input LittleEndian) /\
   8 + declared_length LittleEndian (sample_input LittleEndian) <= 15 /\
   refuse_all (heap s0) (declared_length LittleEndian (sample_input LittleEndian)) = false) /\
  process_input LittleEndian refuse_all (Some (sample_input LittleEndian)) 15 s0
  = (Returned 1,
     State (heap s0)
       (trace s0 ++ header_reads
          ++ [EvMalloc (declared_length LittleEndian (sample_input LittleEndian)) None])).
Proof.
  assert (H1 : take 4 (sample_input LittleEndian) = FUZZ) by reflexivity.
  assert (H2 : 12 <= 15 <= blen (sample_input LittleEndian))
    by (vm_compute; split; discriminate).
  assert (H3 : 0 < declared_length LittleEndian (sample_input LittleEndian))
    by reflexivity.
  assert (H4 : 8 + declared_length LittleEndian (sample_input LittleEndian) <= 15)
    by (vm_compute; discriminate).
  assert (H5 : refuse_all (heap s0)
                 (declared_length LittleEndian (sample_input LittleEndian)) = false)
    by reflexivity.
  split; [auto|].
  exact (proj1 (process_input_allocation_refused LittleEndian refuse_all _ 15 s0
                  H1 H2 H3 H4 H5)).
Defined.

(** The tag, the 8-byte encoding of 100, and only five more bytes. *)
Lemma process_input_rejects_oversized_witness :
  (take 4 (FUZZ ++ encode LittleEndian 100 ++ ["a"; "b"; "c"; "d"; "e"]%byte) = FUZZ /\
   8 <= 17 /\
   in_bounds 4 size_bytes
     (FUZZ ++ encode LittleEndian 100 ++ ["a"; "b"; "c"; "d"; "e"]%byte) = true /\
   17 < 8 + decode LittleEndian
              (slice 4 size_bytes
                 (FUZZ ++ encode LittleEndian 100 ++ ["a"; "b"; "c"; "d"; "e"]%byte))
      <= SIZE_MAX) /\
  process_input LittleEndian grant_all
    (Some (FUZZ ++ encode LittleEndian 100 ++ ["a"; "b"; "c"; "d"; "e"]%byte)) 17 s0
  = (Returned 1, header_read s0).
Proof.
  assert (H : 17 < 8 + decode LittleEndian
                (slice 4 size_bytes
                   (FUZZ ++ encode LittleEndian 100 ++ ["a"; "b"; "c"; "d"; "e"]%byte))
              <= SIZE_MAX) by (vm_compute; split; [reflexivity | discriminate]).
  split; [repeat split; try reflexivity; try apply H; lia|].
  apply (process_input_rejects_oversized LittleEndian grant_all _ 17 s0);
    [reflexivity | lia | reflexivity | exact H].
Defined.

Lemma process_input_returns_witness :
  (15 <= blen (sample_input BigEndian) /\
   (take 4 (sample_input BigEndian) = FUZZ -> 8 <= 15 ->
    in_bounds 4 size_bytes (sample_input BigEndian) = true /\
    8 + decode BigEndian (slice 4 size_bytes (sample_input BigEndian)) <= SIZE_MAX)) /\
  exists r s',
    process_input BigEndian refuse_all (Some (sample_input BigEndian)) 15 s0
    = (Returned r, s') /\
    (r = -1 \/ r = 0 \/ r = 1).
Proof.
  assert (H1 : 15 <= blen (sample_input BigEndian)) by (vm_compute; discriminate).
  assert (H2 : take 4 (sample_input BigEndian) = FUZZ -> 8 <= 15 ->
               in_bounds 4 size_bytes (sample_input BigEndian) = true /\
               8 + decode BigEndian (slice 4 size_bytes (sample_input BigEndian))
               <= SIZE_MAX).
  { intros _ _. split; [reflexivity | vm_compute; discriminate]. }
  split; [auto|].
  exact (process_input_returns BigEndian refuse_all _ 15 s0 H1 H2).
Defined.

(** ** sum_array *)

Lemma sum_Z_app (a b : list Z) : sum_Z (a ++ b) = sum_Z a + sum_Z b.
Proof.
  unfold sum_Z. induction a as [|x a IH]; [reflexivity|].
  cbn [app foldr]. rewrite IH. lia.
Qed.

Lemma sum_Z_bounds (l : list Z) :
  Forall is_int l ->
  blen l * INT_MIN <= sum_Z l <= blen l * INT_MAX.
Proof.
  unfold blen, sum_Z. induction 1 as [|x l Hx _ IH]; [cbn; lia|].
  cbn [foldr length]. unfold is_int, INT_MIN, INT_MAX in *. lia.
Qed.

(** The loop adds up the [n] elements from index [i] when the running sum
    has room for [n] more [int]s. *)
Lemma sum_from_sum (arr : list Z) (n i : nat) (sum : Z) :
  Forall is_int arr -> (i + n <= length arr)%nat ->
  LONG_MIN <= sum + Z.of_nat n * INT_MIN ->
  sum + Z.of_nat n * INT_MAX <= LONG_MAX ->
  sum_from arr (Z.of_nat i) n sum = Returned (sum + sum_Z (take n (drop i arr))).
Proof.
  intros Hint. revert i sum. induction n as [|n IH]; intros i sum Hlen Hlo Hhi.
  { cbn [sum_from]. rewrite take_0. unfold sum_Z. cbn [foldr]. f_equal. lia. }
  destruct (lookup_lt_is_Some_2 arr i) as [x Hx]; [lia|].
  cbn [sum_from]. rewrite Nat2Z.id, Hx.
  assert (Hxi : is_int x) by (eapply Forall_lookup_1; eassumption).
  unfold is_int, INT_MIN, INT_MAX, LONG_MIN, LONG_MAX in *.
  assert (Hl : in_long (sum + x) = true).
  { unfold in_long, LONG_MIN, LONG_MAX. rewrite andb_true_iff, !Z.leb_le. lia. }
  rewrite Hl. replace (Z.of_nat i + 1) with (Z.of_nat (S i)) by lia.
  rewrite IH by lia. rewrite (drop_S _ _ _ Hx), firstn_cons. unfold sum_Z. cbn [foldr].
  f_equal. lia.
Qed.

(** The loop reads only the [n] elements from index [i]. *)
Lemma sum_from_app_l (a b : list Z) (n i : nat) (sum : Z) :
  (i + n <= length a)%nat ->
  sum_from (a ++ b) (Z.of_nat i) n sum = sum_from a (Z.of_nat i) n sum.
Proof.
  revert i sum. induction n as [|n IH]; intros i sum Hlen; [reflexivity|].
  cbn [sum_from]. rewrite Nat2Z.id, lookup_app_l by lia.
  destruct (a !! i) as [x|]; [|reflexivity].
  destruct (in_long (sum + x)); [|reflexivity].
  replace (Z.of_nat i + 1) with (Z.of_nat (S i)) by lia. apply IH. lia.
Qed.

Lemma sum_from_overrun (arr : list Z) (n i : nat) (sum : Z) :
  (i <= length arr < i + n)%nat ->
  sum_from arr (Z.of_nat i) n sum = Undefined.
Proof.
  revert i sum. induction n as [|n IH]; intros i sum Hlen; [lia|].
  cbn [sum_from]. rewrite Nat2Z.id.
  destruct (arr !! i) as [x|] eqn:Hx; [|reflexivity].
  destruct (in_long (sum + x)); [|reflexivity].
  apply lookup_lt_Some in Hx.
  replace (Z.of_nat i + 1) with (Z.of_nat (S i)) by lia. apply IH. lia.
Qed.

(** For an array of at least [count] ints and [count <= 2^32], the call
    returns the exact sum of the first [count] elements: the [long]
    accumulator cannot overflow, and the result lies between
    [count * INT_MIN] and [count * INT_MAX]. *)
Theorem sum_array_correct (arr : list Z) (count : Z) :
  Forall is_int arr -> 0 <= count <= blen arr -> count <= 2 ^ 32 ->
  sum_array (Some arr) count = Returned (sum_Z (take (Z.to_nat count) arr)) /\
  count * INT_MIN <= sum_Z (take (Z.to_nat count) arr) <= count * INT_MAX.
Proof.
  intros Hint Hcount Hsmall. unfold blen in Hcount. split.
  - unfold sum_array.
    pose proof (sum_from_sum arr (Z.to_nat count) 0 0 Hint) as Hsum.
    change (Z.of_nat 0) with 0 in Hsum. cbn [drop] in Hsum.
    rewrite Hsum; [reflexivity | lia | unfold LONG_MIN, INT_MIN; lia
                  | unfold LONG_MAX, INT_MAX; lia].
  - pose proof (sum_Z_bounds (take (Z.to_nat count) arr)) as Hb.
    unfold blen in Hb. rewrite length_take in Hb.
    replace (Z.of_nat (Z.to_nat count `min` length arr)) with count in Hb by lia.
    apply Hb. by apply Forall_take.
Qed.

Lemma sum_array_correct_witness :
  (Forall is_int [5; -7; 2147483647; 9] /\ 0 <= 3 <= blen [5; -7; 2147483647; 9] /\
   3 <= 2 ^ 32) /\
  sum_array (Some [5; -7; 2147483647; 9]) 3 = Returned 2147483645.
Proof.
  assert (H1 : Forall is_int [5; -7; 2147483647; 9]).
  { repeat constructor; vm_compute; discriminate. }
  assert (H2 : 0 <= 3 <= blen [5; -7; 2147483647; 9]) by (vm_compute; split; discriminate).
  assert (H3 : 3 <= 2 ^ 32) by (vm_compute; discriminate).
  split; [auto|].
  exact (proj1 (sum_array_correct [5; -7; 2147483647; 9] 3 H1 H2 H3)).
Defined.

(** A [count] larger than the array is not detected: the loop runs off the
    end of the object (or overflows before it gets there), and the call is
    undefined. *)
Theorem sum_array_count_too_large (arr : list Z) (count : Z) :
  blen arr < count -> sum_array (Some arr) count = Undefined.
Proof.
  intros Hcount. unfold blen in Hcount. unfold sum_array.
  apply (sum_from_overrun arr (Z.to_nat count) 0 0). lia.
Qed.

Lemma sum_array_count_too_large_witness :
  blen [1; 2; 3] < 4 /\ sum_array (Some [1; 2; 3]) 4 = Undefined.
Proof.
  assert (H : blen [1; 2; 3] < 4) by reflexivity.
  split; [exact H|]. exact (sum_array_count_too_large [1; 2; 3] 4 H).
Defined.

(** The call reads the first [count] elements and nothing after them:
    whatever follows them in memory does not change the outcome. *)
Theorem sum_array_reads_count_elements (arr rest : list Z) :
  sum_array (Some (arr ++ rest)) (blen arr) = sum_array (Some arr) (blen arr).
Proof.
  unfold sum_array, blen. rewrite Nat2Z.id.
  apply (sum_from_app_l arr rest (length arr) 0 0). lia.
Qed.

(** The sum of a concatenation is the sum of the sums, for arrays of ints
    of at most [2^32] elements in all. *)
Theorem sum_array_app (a b : list Z) :
  Forall is_int (a ++ b) -> blen (a ++ b) <= 2 ^ 32 ->
  exists x y,
    sum_array (Some a) (blen a) = Returned x /\
    sum_array (Some b) (blen b) = Returned y /\
    sum_array (Some (a ++ b)) (blen (a ++ b)) = Returned (x + y).
Proof.
  intros [Ha Hb]%Forall_app Hlen. unfold blen in *. rewrite length_app in Hlen.
  assert (Hrun : forall l, Forall is_int l -> Z.of_nat (length l) <= 2 ^ 32 ->
                   sum_array (Some l) (Z.of_nat (length l)) = Returned (sum_Z l)).
  { intros l Hl Hn. unfold sum_array. rewrite Nat2Z.id.
    pose proof (sum_from_sum l (length l) 0 0 Hl) as Hsum.
    change (Z.of_nat 0) with 0 in Hsum. cbn [drop] in Hsum.
    rewrite firstn_all in Hsum.
    rewrite Hsum; [reflexivity | lia | unfold LONG_MIN, INT_MIN; lia
                  | unfold LONG_MAX, INT_MAX; lia]. }
  exists (sum_Z a), (sum_Z b). split; [apply Hrun; [assumption | lia]|].
  split; [apply Hrun; [assumption | lia]|].
  rewrite <- sum_Z_app. apply Hrun; [by apply Forall_app | rewrite length_app; lia].
Qed.

Lemma sum_array_app_witness :
  (Forall is_int ([1; 2] ++ [-3; 4; 5]) /\ blen ([1; 2] ++ [-3; 4; 5]) <= 2 ^ 32) /\
  exists x y,
    sum_array (Some [1; 2]) (blen [1; 2]) = Returned x /\
    sum_array (Some [-3; 4; 5]) (blen [-3; 4; 5]) = Returned y /\
    sum_array (Some ([1; 2] ++ [-3; 4; 5])) (blen ([1; 2] ++ [-3; 4; 5])) = Returned (x + y).
Proof.
  assert (H1 : Forall is_int ([1; 2] ++ [-3; 4; 5])).
  { repeat constructor; vm_compute; discriminate. }
  assert (H2 : blen ([1; 2] ++ [-3; 4; 5]) <= 2 ^ 32) by (vm_compute; discriminate).
  split; [auto|]. exact (sum_array_app [1; 2] [-3; 4; 5] H1 H2).
Defined.

(** ** C strings *)

Lemma c_string_no_nul (s : list byte) : Forall (fun c => c <> "000"%byte) (c_string s).
Proof.
  induction s as [|c s IH]; cbn [c_string]; [constructor|].
  destruct (Byte.eqb c "000") eqn:Hc; constructor; [|assumption].
  intros ->. rewrite (Byte.byte_dec_lb eq_refl) in Hc. discriminate.
Qed.

Lemma c_string_app (l r : list byte) :
  Forall (fun c => c <> "000"%byte) l -> c_string (l ++ r) = l ++ c_string r.
Proof.
  induction 1 as [|c l Hc _ IH]; [reflexivity|].
  cbn [app c_string]. destruct (Byte.eqb c "000") eqn:E.
  - apply byte_eqb_eq in E. contradiction.
  - by rewrite IH.
Qed.

Lemma c_string_padded (l rest : list byte) (m : nat) :
  Forall (fun c => c <> "000"%byte) l ->
  c_string (l ++ replicate m "000"%byte ++ "000"%byte :: rest) = l.
Proof.
  intros Hl. rewrite c_string_app by assumption.
  destruct m; cbn; by rewrite app_nil_r.
Qed.

Lemma c_string_length (s : list byte) : (length (c_string s) <= length s)%nat.
Proof.
  induction s as [|c s IH]; cbn [c_string]; [done|].
  destruct (Byte.eqb c "000"); cbn; lia.
Qed.

(** [strcpy] stores the string and its terminator, when there is one. *)
Lemma strcpy_bytes_terminated (s : list byte) :
  "000"%byte ∈ s -> strcpy_bytes s = Some (c_string s ++ ["000"%byte]).
Proof.
  induction s as [|c s IH]; intros Hin; [by apply elem_of_nil in Hin|].
  cbn [strcpy_bytes c_string]. destruct (Byte.eqb c "000") eqn:Hc; [reflexivity|].
  apply elem_of_cons in Hin as [<- | Hin].
  { rewrite (Byte.byte_dec_lb eq_refl) in Hc. discriminate. }
  by rewrite IH.
Qed.

Lemma strcpy_bytes_unterminated (s : list byte) :
  "000"%byte ∉ s -> strcpy_bytes s = None.
Proof.
  induction s as [|c s IH]; intros Hin; [reflexivity|].
  cbn [strcpy_bytes]. apply not_elem_of_cons in Hin as [Hc Hin].
  destruct (Byte.eqb c "000") eqn:E.
  - apply byte_eqb_eq in E. congruence.
  - by rewrite IH.
Qed.

(** ** copy_string *)

(** The call is defined exactly when the source holds a terminator and the
    string with its terminator fits the destination object; [dest_size]
    plays no part, so a source string of [dest_size] characters or more
    overruns a destination of [dest_size] bytes. *)
Theorem copy_string_defined_iff (d s : list byte) (dest_size : Z) :
  copy_string (Some d) (Some s) dest_size <> Undefined <->
  "000"%byte ∈ s /\ blen (c_string s) < blen d.
Proof.
  unfold copy_string, strcpy.
  destruct (decide ("000"%byte ∈ s)) as [Hin | Hin].
  - rewrite strcpy_bytes_terminated by assumption.
    unfold blen. rewrite length_app. cbn [length].
    destruct (Z.leb_spec (Z.of_nat (length (c_string s) + 1)) (Z.of_nat (length d))).
    + split; [intros _; split; [assumption | lia] | discriminate].
    + split; [congruence | intros [_ ?]; lia].
  - rewrite strcpy_bytes_unterminated by assumption.
    split; [congruence | intros [? _]; contradiction].
Qed.

Lemma copy_string_result (d s : list byte) (dest_size : Z) :
  "000"%byte ∈ s -> blen (c_string s) < blen d ->
  copy_string (Some d) (Some s) dest_size
  = Returned (Some (c_string s ++ "000"%byte :: drop (S (length (c_string s))) d)).
Proof.
  intros Hin Hfit. unfold blen in Hfit. unfold copy_string, strcpy.
  rewrite strcpy_bytes_terminated by assumption.
  unfold blen. rewrite length_app. cbn [length].
  destruct (Z.leb_spec (Z.of_nat (length (c_string s) + 1)) (Z.of_nat (length d))); [|lia].
  rewrite <- app_assoc. cbn [app]. by rewrite Nat.add_1_r.
Qed.

(** When the string fits, the destination receives it with its terminator:
    afterwards [dest] holds the same C string as [src], the object keeps
    its size, and the bytes after the terminator are untouched. *)
Theorem copy_string_copies (d s : list byte) (dest_size : Z) :
  "000"%byte ∈ s -> blen (c_string s) < blen d ->
  exists d',
    copy_string (Some d) (Some s) dest_size = Returned (Some d') /\
    c_string d' = c_string s /\
    length d' = length d /\
    drop (S (length (c_string s))) d' = drop (S (length (c_string s))) d.
Proof.
  intros Hin Hfit. eexists. split; [by apply copy_string_result|].
  unfold blen in Hfit. split; [|split].
  - apply (c_string_padded (c_string s) _ 0), c_string_no_nul.
  - rewrite length_app. cbn [length]. rewrite length_drop. lia.
  - change (c_string s ++ "000"%byte :: drop (S (length (c_string s))) d)
      with (c_string s ++ ["000"%byte] ++ drop (S (length (c_string s))) d).
    rewrite app_assoc, drop_app_length'; [reflexivity|].
    rewrite length_app. cbn [length]. lia.
Qed.

Lemma copy_string_copies_witness :
  ("000"%byte ∈ ["h"; "i"; "000"; "z"]%byte /\
   blen (c_string ["h"; "i"; "000"; "z"]%byte) < blen ["x"; "x"; "x"; "x"]%byte) /\
  exists d',
    copy_string (Some ["x"; "x"; "x"; "x"]%byte) (Some ["h"; "i"; "000"; "z"]%byte) 0
    = Returned (Some d') /\
    c_string d' = c_string ["h"; "i"; "000"; "z"]%byte /\
    length d' = length ["x"; "x"; "x"; "x"]%byte /\
    drop (S (length (c_string ["h"; "i"; "000"; "z"]%byte))) d'
    = drop (S (length (c_string ["h"; "i"; "000"; "z"]%byte))) ["x"; "x"; "x"; "x"]%byte.
Proof.
  assert (H1 : "000"%byte ∈ ["h"; "i"; "000"; "z"]%byte).
  { do 2 apply list_elem_of_further. apply list_elem_of_here. }
  assert (H2 : blen (c_string ["h"; "i"; "000"; "z"]%byte) < blen ["x"; "x"; "x"; "x"]%byte)
    by reflexivity.
  split; [auto|]. exact (copy_string_copies _ _ 0 H1 H2).
Defined.

(** ** safe_copy_string, continued *)

(** The destination after a call within the contract: the source string cut
    or padded to [dest_size - 1] bytes, a null byte, and the old bytes from
    [dest_size] on. *)
Lemma safe_copy_string_result (d s : list byte) (dest_size : Z) :
  0 < dest_size <= SIZE_MAX -> dest_size <= blen d ->
  src_readable s (dest_size - 1) ->
  safe_copy_string (Some d) (Some s) dest_size
  = Returned (Some (take (Z.to_nat (dest_size - 1))
                      (c_string s ++ replicate (Z.to_nat (dest_size - 1)) "000"%byte)
                    ++ "000"%byte :: drop (Z.to_nat dest_size) d)).
Proof.
  intros Hsize Hdest Hsrc. unfold safe_copy_string, strncpy, store.
  destruct (Z.eqb_spec dest_size 0); [lia|].
  assert (Hsub : size_sub dest_size 1 = dest_size - 1).
  { unfold size_sub. apply Z.mod_small. unfold SIZE_MAX in *. lia. }
  rewrite Hsub. set (k := Z.to_nat (dest_size - 1)).
  assert (Hk : Z.to_nat dest_size = S k) by lia.
  assert (Hlen : (S k <= length d)%nat) by (unfold blen in *; lia).
  assert (Hin : in_bounds 0 (dest_size - 1) d = true).
  { apply in_bounds_true. unfold blen in *. lia. }
  rewrite Hin.
  destruct (strncpy_bytes_defined s k) as (bs & Hbs & Hbslen).
  { destruct Hsrc as [?|?]; [by left | right; unfold blen in *; lia]. }
  rewrite Hbs.
  assert (Hin1 : in_bounds (dest_size - 1) 1 (bs ++ drop k d) = true).
  { apply in_bounds_true. unfold blen. rewrite length_app, length_drop. lia. }
  rewrite Hin1. fold k. do 2 f_equal.
  rewrite insert_app_r_alt by lia.
  destruct (lookup_lt_is_Some_2 d k) as [y Hy]; [lia|].
  rewrite (drop_S _ _ _ Hy), Hbslen, Nat.sub_diag, Hk. cbn [insert list_insert].
  f_equal. apply (strncpy_bytes_spec s bs k k); [lia | assumption].
Qed.

(** After a call within the contract, [dest] holds a terminated C string:
    the source string cut to at most [dest_size - 1] characters, and the
    whole source string when it is shorter than [dest_size]. *)
Theorem safe_copy_string_truncates (d s : list byte) (dest_size : Z) :
  0 < dest_size <= SIZE_MAX -> dest_size <= blen d ->
  src_readable s (dest_size - 1) ->
  exists d',
    safe_copy_string (Some d) (Some s) dest_size = Returned (Some d') /\
    c_string d' = take (Z.to_nat (dest_size - 1)) (c_string s) /\
    blen (c_string d') < dest_size /\
    (blen (c_string s) < dest_size -> c_string d' = c_string s).
Proof.
  intros Hsize Hdest Hsrc. eexists. split; [by apply safe_copy_string_result|].
  set (k := Z.to_nat (dest_size - 1)).
  assert (Hc : c_string (take k (c_string s ++ replicate k "000"%byte)
                         ++ "000"%byte :: drop (Z.to_nat dest_size) d)
               = take k (c_string s)).
  { rewrite take_app, take_replicate, <- app_assoc.
    apply c_string_padded, Forall_take, c_string_no_nul. }
  rewrite Hc. split; [reflexivity|]. split.
  - unfold blen. rewrite length_take. lia.
  - intros Hshort. apply take_ge. unfold blen in Hshort. lia.
Qed.

Lemma safe_copy_string_truncates_witness :
  (0 < 3 <= SIZE_MAX /\ 3 <= blen ["x"; "x"; "x"; "x"]%byte /\
   src_readable ["h"; "e"; "l"; "l"; "o"; "000"]%byte (3 - 1)) /\
  exists d',
    safe_copy_string (Some ["x"; "x"; "x"; "x"]%byte)
                     (Some ["h"; "e"; "l"; "l"; "o"; "000"]%byte) 3
    = Returned (Some d') /\
    c_string d' = take (Z.to_nat (3 - 1)) (c_string ["h"; "e"; "l"; "l"; "o"; "000"]%byte) /\
    blen (c_string d') < 3 /\
    (blen (c_string ["h"; "e"; "l"; "l"; "o"; "000"]%byte) < 3 ->
     c_string d' = c_string ["h"; "e"; "l"; "l"; "o"; "000"]%byte).
Proof.
  assert (H1 : 0 < 3 <= SIZE_MAX) by (vm_compute; split; [reflexivity | discriminate]).
  assert (H2 : 3 <= blen ["x"; "x"; "x"; "x"]%byte) by (vm_compute; discriminate).
  assert (H3 : src_readable ["h"; "e"; "l"; "l"; "o"; "000"]%byte (3 - 1)).
  { right. vm_compute. discriminate. }
  split; [auto|]. exact (safe_copy_string_truncates _ _ 3 H1 H2 H3).
Defined.

(** Copying the same source a second time changes nothing. *)
Theorem safe_copy_string_idempotent (d d' s : list byte) (dest_size : Z) :
  0 < dest_size <= SIZE_MAX -> dest_size <= blen d ->
  src_readable s (dest_size - 1) ->
  safe_copy_string (Some d) (Some s) dest_size = Returned (Some d') ->
  safe_copy_string (Some d') (Some s) dest_size = Returned (Some d').
Proof.
  intros Hsize Hdest Hsrc Hrun.
  rewrite safe_copy_string_result in Hrun by assumption.
  injection Hrun as Hd'. set (k := Z.to_nat (dest_size - 1)) in *.
  assert (Hk : Z.to_nat dest_size = S k) by lia.
  assert (Hp : length (take k (c_string s ++ replicate k "000"%byte)) = k).
  { rewrite length_take, length_app, length_replicate. lia. }
  assert (Hlen : length d' = length d).
  { rewrite <- Hd', length_app, Hp. cbn [length]. rewrite length_drop.
    unfold blen in *. lia. }
  rewrite safe_copy_string_result; [|assumption|unfold blen in *; lia|assumption].
  do 2 f_equal. fold k. rewrite <- Hd' at 2. f_equal. f_equal.
  rewrite <- Hd', Hk. rewrite drop_app_ge by lia. rewrite Hp.
  replace (S k - k)%nat with 1%nat by lia. cbn [drop]. by rewrite drop_0.
Qed.

Lemma safe_copy_string_idempotent_witness :
  (0 < 3 <= SIZE_MAX /\ 3 <= blen ["x"; "x"; "x"; "x"]%byte /\
   src_readable ["h"; "e"; "l"; "l"; "o"; "000"]%byte (3 - 1) /\
   safe_copy_string (Some ["x"; "x"; "x"; "x"]%byte)
                    (Some ["h"; "e"; "l"; "l"; "o"; "000"]%byte) 3
   = Returned (Some ["h"; "e"; "000"; "x"]%byte)) /\
  safe_copy_string (Some ["h"; "e"; "000"; "x"]%byte)
                   (Some ["h"; "e"; "l"; "l"; "o"; "000"]%byte) 3
  = Returned (Some ["h"; "e"; "000"; "x"]%byte).
Proof.
  assert (H1 : 0 < 3 <= SIZE_MAX) by (vm_compute; split; [reflexivity | discriminate]).
  assert (H2 : 3 <= blen ["x"; "x"; "x"; "x"]%byte) by (vm_compute; discriminate).
  assert (H3 : src_readable ["h"; "e"; "l"; "l"; "o"; "000"]%byte (3 - 1)).
  { right. vm_compute. discriminate. }
  assert (H4 : safe_copy_string (Some ["x"; "x"; "x"; "x"]%byte)
                 (Some ["h"; "e"; "l"; "l"; "o"; "000"]%byte) 3
               = Returned (Some ["h"; "e"; "000"; "x"]%byte)) by reflexivity.
  split; [auto|]. exact (safe_copy_string_idempotent _ _ _ 3 H1 H2 H3 H4).
Defined.

(** The call always stores [dest_size] bytes: a [dest_size] larger than the
    destination object overruns it, however short the source string is. *)
Theorem safe_copy_string_size_too_large (d s : list byte) (dest_size : Z) :
  0 < dest_size <= SIZE_MAX -> blen d < dest_size ->
  safe_copy_string (Some d) (Some s) dest_size = Undefined.
Proof.
  intros Hsize Hbig. unfold safe_copy_string, strncpy, store.
  destruct (Z.eqb_spec dest_size 0); [lia|].
  assert (Hsub : size_sub dest_size 1 = dest_size - 1).
  { unfold size_sub. apply Z.mod_small. unfold SIZE_MAX in *. lia. }
  rewrite Hsub.
  destruct (in_bounds 0 (dest_size - 1) d) eqn:Hin; [|reflexivity].
  apply in_bounds_true in Hin.
  destruct (strncpy_bytes s (Z.to_nat (dest_size - 1))) as [bs|] eqn:Hbs; [|reflexivity].
  assert (Hlen : length bs = Z.to_nat (dest_size - 1)).
  { destruct (Z.to_nat (dest_size - 1)) as [|k] eqn:Hk.
    - cbn in Hbs. by injection Hbs as <-.
    - rewrite (strncpy_bytes_spec s bs (S k) (S k) (le_n _) Hbs).
      rewrite length_take, length_app, length_replicate. lia. }
  assert (Hout : in_bounds (dest_size - 1) 1
                   (bs ++ drop (Z.to_nat (dest_size - 1)) d) = false).
  { apply in_bounds_false; [lia..|]. unfold blen in *.
    rewrite length_app, length_drop. lia. }
  by rewrite Hout.
Qed.

Lemma safe_copy_string_size_too_large_witness :
  (0 < 5 <= SIZE_MAX /\ blen ["x"; "x"; "x"; "x"]%byte < 5) /\
  safe_copy_string (Some ["x"; "x"; "x"; "x"]%byte) (Some ["000"]%byte) 5 = Undefined.
Proof.
  assert (H1 : 0 < 5 <= SIZE_MAX) by (vm_compute; split; [reflexivity | discriminate]).
  assert (H2 : blen ["x"; "x"; "x"; "x"]%byte < 5) by reflexivity.
  split; [auto|]. exact (safe_copy_string_size_too_large _ ["000"]%byte 5 H1 H2).
Defined.

(** ** The two copies compared *)

(** For a destination of [dest_size] bytes or more and a terminated source
    string shorter than [dest_size], both functions are defined and leave
    the same C string in the destination. *)
Theorem copy_string_agrees_with_safe_copy_string (d s : list byte) (dest_size : Z) :
  "000"%byte ∈ s -> blen (c_string s) < dest_size <= blen d ->
  dest_size <= SIZE_MAX ->
  exists d1 d2,
    copy_string (Some d) (Some s) dest_size = Returned (Some d1) /\
    safe_copy_string (Some d) (Some s) dest_size = Returned (Some d2) /\
    c_string d1 = c_string s /\ c_string d2 = c_string s.
Proof.
  intros Hin [Hfit Hdest] Hsize.
  assert (Hpos : 0 < dest_size) by (unfold blen in Hfit; lia).
  eexists _, _. split; [apply copy_string_result; [assumption | lia]|].
  split; [apply safe_copy_string_result; [lia | assumption | by left]|].
  split; [apply (c_string_padded (c_string s) _ 0), c_string_no_nul|].
  rewrite take_app, take_replicate, <- app_assoc.
  rewrite c_string_padded by apply Forall_take, c_string_no_nul.
  apply take_ge. unfold blen in Hfit. lia.
Qed.

Lemma copy_string_agrees_with_safe_copy_string_witness :
  ("000"%byte ∈ ["h"; "i"; "000"]%byte /\
   blen (c_string ["h"; "i"; "000"]%byte) < 4 <= blen ["x"; "x"; "x"; "x"; "x"]%byte /\
   4 <= SIZE_MAX) /\
  exists d1 d2,
    copy_string (Some ["x"; "x"; "x"; "x"; "x"]%byte) (Some ["h"; "i"; "000"]%byte) 4
    = Returned (Some d1) /\
    safe_copy_string (Some ["x"; "x"; "x"; "x"; "x"]%byte) (Some ["h"; "i"; "000"]%byte) 4
    = Returned (Some d2) /\
    c_string d1 = c_string ["h"; "i"; "000"]%byte /\
    c_string d2 = c_string ["h"; "i"; "000"]%byte.
Proof.
  assert (H1 : "000"%byte ∈ ["h"; "i"; "000"]%byte).
  { do 2 apply list_elem_of_further. apply list_elem_of_here. }
  assert (H2 : blen (c_string ["h"; "i"; "000"]%byte) < 4
               <= blen ["x"; "x"; "x"; "x"; "x"]%byte)
    by (vm_compute; split; [reflexivity | discriminate]).
  assert (H3 : 4 <= SIZE_MAX) by (vm_compute; discriminate).
  split; [auto|]. exact (copy_string_agrees_with_safe_copy_string _ _ 4 H1 H2 H3).
Defined.

(** ** What the copies read of the source *)

Lemma strncpy_bytes_app (s rest : list byte) (k : nat) :
  "000"%byte ∈ s \/ (k <= length s)%nat ->
  strncpy_bytes (s ++ rest) k = strncpy_bytes s k.
Proof.
  revert s. induction k as [|k IH]; intros s Hs; [reflexivity|].
  destruct s as [|c s].
  { destruct Hs as [Hin | Hlen]; [by apply elem_of_nil in Hin | cbn in Hlen; lia]. }
  cbn [app strncpy_bytes]. destruct (Byte.eqb c "000") eqn:Hc; [reflexivity|].
  rewrite IH; [reflexivity|].
  destruct Hs as [Hin | Hlen]; [left | right; cbn in Hlen; lia].
  apply elem_of_cons in Hin as [<- | Hin]; [|assumption].
  rewrite (Byte.byte_dec_lb eq_refl) in Hc. discriminate.
Qed.

Lemma strcpy_bytes_app (s rest : list byte) :
  "000"%byte ∈ s -> strcpy_bytes (s ++ rest) = strcpy_bytes s.
Proof.
  induction s as [|c s IH]; intros Hin; [by apply elem_of_nil in Hin|].
  cbn [app strcpy_bytes]. destruct (Byte.eqb c "000") eqn:Hc; [reflexivity|].
  apply elem_of_cons in Hin as [<- | Hin].
  { rewrite (Byte.byte_dec_lb eq_refl) in Hc. discriminate. }
  by rewrite IH.
Qed.

(** [safe_copy_string] reads the source up to its terminator or up to
    [dest_size - 1] bytes, whichever comes first: what lies behind in memory
    has no influence on the outcome. *)
Theorem safe_copy_string_reads_bounded (d s rest : list byte) (dest_size : Z) :
  0 < dest_size <= SIZE_MAX -> src_readable s (dest_size - 1) ->
  safe_copy_string (Some d) (Some (s ++ rest)) dest_size
  = safe_copy_string (Some d) (Some s) dest_size.
Proof.
  intros Hsize Hsrc. unfold safe_copy_string, strncpy.
  destruct (Z.eqb_spec dest_size 0); [lia|].
  assert (Hsub : size_sub dest_size 1 = dest_size - 1).
  { unfold size_sub. apply Z.mod_small. unfold SIZE_MAX in *. lia. }
  rewrite Hsub, strncpy_bytes_app; [reflexivity|].
  destruct Hsrc as [?|?]; [by left | right; unfold blen in *; lia].
Qed.

Lemma safe_copy_string_reads_bounded_witness :
  (0 < 3 <= SIZE_MAX /\ src_readable ["h"; "e"; "l"]%byte (3 - 1)) /\
  safe_copy_string (Some ["x"; "x"; "x"; "x"]%byte) (Some (["h"; "e"; "l"] ++ ["l"; "o"])%byte) 3
  = safe_copy_string (Some ["x"; "x"; "x"; "x"]%byte) (Some ["h"; "e"; "l"]%byte) 3.
Proof.
  assert (H1 : 0 < 3 <= SIZE_MAX) by (vm_compute; split; [reflexivity | discriminate]).
  assert (H2 : src_readable ["h"; "e"; "l"]%byte (3 - 1)).
  { right. vm_compute. discriminate. }
  split; [auto|].
  exact (safe_copy_string_reads_bounded ["x"; "x"; "x"; "x"]%byte _ ["l"; "o"]%byte 3 H1 H2).
Defined.

(** [copy_string] reads a terminated source up to its terminator only. *)
Theorem copy_string_reads_string (d s rest : list byte) (dest_size : Z) :
  "000"%byte ∈ s ->
  copy_string (Some d) (Some (s ++ rest)) dest_size
  = copy_string (Some d) (Some s) dest_size.
Proof.
  intros Hin. unfold copy_string, strcpy. by rewrite strcpy_bytes_app.
Qed.

Lemma copy_string_reads_string_witness :
  "000"%byte ∈ ["h"; "i"; "000"]%byte /\
  copy_string (Some ["x"; "x"; "x"; "x"]%byte) (Some (["h"; "i"; "000"] ++ ["z"])%byte) 4
  = copy_string (Some ["x"; "x"; "x"; "x"]%byte) (Some ["h"; "i"; "000"]%byte) 4.
Proof.
  assert (H1 : "000"%byte ∈ ["h"; "i"; "000"]%byte).
  { do 2 apply list_elem_of_further. apply list_elem_of_here. }
  split; [exact H1|].
  exact (copy_string_reads_string ["x"; "x"; "x"; "x"]%byte _ ["z"]%byte 4 H1).
Defined.

(** ** The status and the payload *)

Lemma path_outcome_unique (order : endianness) (alloc : allocator) (buf : list byte)
    (len : Z) (h h1 h2 : gmap block cells) (o1 o2 : outcome Z) (t1 t2 : list event) :
  len <= blen buf ->
  path order alloc buf len h o1 h1 t1 ->
  path order alloc buf len h o2 h2 t2 ->
  o1 = o2.
Proof.
  intros Hlen Hp1 Hp2.
  inversion Hp1; subst; inversion Hp2; subst;
    first [reflexivity | congruence | lia].
Qed.

Lemma declared_length_header (order : endianness) (buf buf' : list byte) :
  take 12 buf = take 12 buf' ->
  declared_length order buf = declared_length order buf'.
Proof.
  intros Hhdr. unfold declared_length, slice, size_bytes. f_equal.
  change (Z.to_nat 8) with 8%nat. change (Z.to_nat 4) with 4%nat.
  rewrite !take_drop_commute. change (4 + 8)%nat with 12%nat. by rewrite Hhdr.
Qed.

Lemma path_header (order : endianness) (alloc : allocator) (buf buf' : list byte)
    (len : Z) (h h1 : gmap block cells) (o : outcome Z) (t1 : list event) :
  take 12 buf = take 12 buf' -> length buf = length buf' ->
  path order alloc buf len h o h1 t1 ->
  exists h2 t2, path order alloc buf' len h o h2 t2.
Proof.
  intros Hhdr Hlength Hp.
  assert (Htag : take 4 buf = take 4 buf').
  { transitivity (take 4 (take 12 buf)); [symmetry; apply (take_take buf 4 12)|].
    rewrite Hhdr. apply (take_take buf' 4 12). }
  assert (Hblen : blen buf = blen buf') by (unfold blen; by rewrite Hlength).
  assert (Hin : forall off n, in_bounds off n buf = in_bounds off n buf').
  { intros off n. unfold in_bounds. by rewrite Hblen. }
  pose proof (declared_length_header order buf buf' Hhdr) as Hd.
  assert (Hg : length_check order buf len = length_check order buf' len).
  { unfold length_check. by rewrite Hd. }
  inversion Hp; subst; rewrite ?Htag, ?Hblen, ?Hin, ?Hg, ?Hd in *; eexists _, _.
  - by apply path_short.
  - by apply path_bad_magic.
  - by apply path_magic_out_of_bounds.
  - by apply path_no_header.
  - by apply path_header_out_of_bounds.
  - by apply path_length_rejected.
  - by apply path_alloc_failed.
  - by apply path_copy_out_of_bounds.
  - by apply path_processed.
Qed.

(** The status depends on the tag, the length field and the size of the
    input only: two inputs of the same size that agree on their first 12
    bytes get the same outcome, whatever their payloads. *)
Theorem process_input_status_ignores_payload (order : endianness) (alloc : allocator)
    (buf buf' : list byte) (len : Z) (s : state) :
  take 12 buf = take 12 buf' -> length buf = length buf' -> len <= blen buf ->
  fst (process_input order alloc (Some buf) len s)
  = fst (process_input order alloc (Some buf') len s).
Proof.
  intros Hhdr Hlength Hlen. destruct (Z.eq_dec len 0) as [->|H0].
  { by rewrite !process_input_empty. }
  destruct (process_input_path order alloc buf len s H0) as (o & h1 & t1 & Hp & ->).
  destruct (process_input_path order alloc buf' len s H0) as (o' & h1' & t1' & Hp' & ->).
  cbn [fst]. destruct (path_header _ _ _ _ _ _ _ _ _ Hhdr Hlength Hp) as (h2 & t2 & Hp2).
  eapply path_outcome_unique; [|exact Hp2|exact Hp'].
  unfold blen in *. by rewrite <- Hlength.
Qed.

Lemma process_input_status_ignores_payload_witness :
  (take 12 (sample_input LittleEndian)
   = take 12 (FUZZ ++ encode LittleEndian 3 ++ ["x"; "y"; "z"]%byte) /\
   length (sample_input LittleEndian)
   = length (FUZZ ++ encode LittleEndian 3 ++ ["x"; "y"; "z"]%byte) /\
   15 <= blen (sample_input LittleEndian)) /\
  fst (process_input LittleEndian grant_all (Some (sample_input LittleEndian)) 15 s0)
  = fst (process_input LittleEndian grant_all
           (Some (FUZZ ++ encode LittleEndian 3 ++ ["x"; "y"; "z"]%byte)) 15 s0).
Proof.
  assert (H1 : take 12 (sample_input LittleEndian)
               = take 12 (FUZZ ++ encode LittleEndian 3 ++ ["x"; "y"; "z"]%byte))
    by reflexivity.
  assert (H2 : length (sample_input LittleEndian)
               = length (FUZZ ++ encode LittleEndian 3 ++ ["x"; "y"; "z"]%byte))
    by reflexivity.
  assert (H3 : 15 <= blen (sample_input LittleEndian)) by (vm_compute; discriminate).
  split; [auto|].
  exact (process_input_status_ignores_payload LittleEndian grant_all _ _ 15 s0 H1 H2 H3).
Defined.

(** ** find_substring *)

Lemma is_prefix_spec (p l : list byte) :
  is_prefix p l = true <-> take (length p) l = p.
Proof.
  revert l. induction p as [|a p IH]; intros l; [done|].
  destruct l as [|b l]; cbn [is_prefix length take]; [done|].
  rewrite andb_true_iff, byte_eqb_eq, IH. split.
  - by intros [-> ->].
  - intros [= -> Hp]. by rewrite Hp.
Qed.

Lemma first_occurrence_found (needle hay : list byte) (i : nat) :
  first_occurrence needle hay = Some i ->
  occurs_at needle hay i /\ forall j, (j < i)%nat -> ~ occurs_at needle hay j.
Proof.
  unfold occurs_at. revert i. induction hay as [|b hay IH]; intros i.
  - cbn [first_occurrence]. destruct (is_prefix needle []) eqn:Hp; [|done].
    intros [= <-]. split; [by apply is_prefix_spec | lia].
  - cbn [first_occurrence]. destruct (is_prefix needle (b :: hay)) eqn:Hp.
    + intros [= <-]. split; [by apply is_prefix_spec | lia].
    + destruct (first_occurrence needle hay) as [k|]; [|done].
      intros [= <-]. destruct (IH k eq_refl) as [Hk Hfirst]. split; [exact Hk|].
      intros [|j] Hj.
      * cbn [drop]. intros Hocc%is_prefix_spec. congruence.
      * cbn [drop]. apply Hfirst. lia.
Qed.

Lemma first_occurrence_absent (needle hay : list byte) :
  first_occurrence needle hay = None <-> forall i, ~ occurs_at needle hay i.
Proof.
  unfold occurs_at. induction hay as [|b hay IH].
  - cbn [first_occurrence]. destruct (is_prefix needle []) eqn:Hp.
    + split; [done|]. intros H. apply is_prefix_spec in Hp. by destruct (H 0%nat).
    + split; [|done]. intros _ i. rewrite drop_nil. intros Hocc%is_prefix_spec. congruence.
  - cbn [first_occurrence]. destruct (is_prefix needle (b :: hay)) eqn:Hp.
    + split; [done|]. intros H. apply is_prefix_spec in Hp. by destruct (H 0%nat).
    + destruct (first_occurrence needle hay) as [k|] eqn:Hk.
      * split; [done|]. intros H. apply first_occurrence_found in Hk as [Hk _].
        by destruct (H (S k)).
      * split; [|done]. intros _ [|i]; cbn [drop].
        -- intros Hocc%is_prefix_spec. congruence.
        -- by apply IH.
Qed.

(** A non-null result is the offset of the first occurrence of the string
    [needle] in the string [haystack], and the occurrence lies inside the
    haystack string. *)
Theorem find_substring_first_occurrence (h n : list byte) (off : Z) :
  find_substring (Some h) (Some n) = Returned (Some off) ->
  exists i,
    off = Z.of_nat i /\
    occurs_at (c_string n) (c_string h) i /\
    (i + length (c_string n) <= length (c_string h))%nat /\
    forall j, (j < i)%nat -> ~ occurs_at (c_string n) (c_string h) j.
Proof.
  unfold find_substring, strstr.
  destruct (terminated h && terminated n); [|done].
  destruct (first_occurrence (c_string n) (c_string h)) as [i|] eqn:Hi; [|done].
  intros [= <-]. exists i. split; [reflexivity|].
  destruct (first_occurrence_found _ _ _ Hi) as [Hocc Hfirst].
  split; [assumption|]. split; [|assumption].
  pose proof (f_equal length Hocc) as Hlen. rewrite length_take, length_drop in Hlen.
  destruct (decide (i = 0%nat)) as [->|Hne]; [lia|].
  destruct (c_string n) as [|c cs] eqn:Hn; [|cbn [length] in *; lia].
  exfalso. apply (Hfirst 0%nat); [lia | reflexivity].
Qed.

Lemma find_substring_first_occurrence_witness :
  find_substring (Some ["a"; "b"; "c"; "b"; "c"; "000"]%byte) (Some ["b"; "c"; "000"]%byte)
  = Returned (Some 1) /\
  exists i,
    1 = Z.of_nat i /\
    occurs_at (c_string ["b"; "c"; "000"]%byte)
      (c_string ["a"; "b"; "c"; "b"; "c"; "000"]%byte) i /\
    (i + length (c_string ["b"; "c"; "000"]%byte)
     <= length (c_string ["a"; "b"; "c"; "b"; "c"; "000"]%byte))%nat /\
    forall j, (j < i)%nat ->
      ~ occurs_at (c_string ["b"; "c"; "000"]%byte)
          (c_string ["a"; "b"; "c"; "b"; "c"; "000"]%byte) j.
Proof.
  assert (H : find_substring (Some ["a"; "b"; "c"; "b"; "c"; "000"]%byte)
                (Some ["b"; "c"; "000"]%byte) = Returned (Some 1)) by reflexivity.
  split; [exact H|]. exact (find_substring_first_occurrence _ _ 1 H).
Defined.

(** For terminated arguments the null pointer is returned exactly when the
    string [needle] occurs nowhere in the string [haystack]; the same null
    pointer is what a null argument gives. *)
Theorem find_substring_null_iff (h n : list byte) :
  "000"%byte ∈ h -> "000"%byte ∈ n ->
  find_substring (Some h) (Some n) = Returned None <->
  forall i, ~ occurs_at (c_string n) (c_string h) i.
Proof.
  intros Hh Hn. unfold find_substring, strstr, terminated.
  rewrite !bool_decide_eq_true_2 by assumption. cbn [andb].
  rewrite <- first_occurrence_absent.
  destruct (first_occurrence (c_string n) (c_string h)); cbn; split; congruence.
Qed.

Lemma find_substring_null_iff_witness :
  ("000"%byte ∈ ["a"; "b"; "000"]%byte /\ "000"%byte ∈ ["c"; "000"]%byte) /\
  (find_substring (Some ["a"; "b"; "000"]%byte) (Some ["c"; "000"]%byte) = Returned None <->
   forall i, ~ occurs_at (c_string ["c"; "000"]%byte) (c_string ["a"; "b"; "000"]%byte) i).
Proof.
  assert (H1 : "000"%byte ∈ ["a"; "b"; "000"]%byte).
  { do 2 apply list_elem_of_further. apply list_elem_of_here. }
  assert (H2 : "000"%byte ∈ ["c"; "000"]%byte).
  { apply list_elem_of_further, list_elem_of_here. }
  split; [auto|]. exact (find_substring_null_iff _ _ H1 H2).
Defined.

(** ** parse_int *)

Lemma digit_of_digit_char (d : Z) : is_digit d -> digit_of (digit_char d) = Some d.
Proof.
  intros Hd. unfold is_digit in Hd. unfold digit_of, digit_char.
  rewrite byte_val_of_Z, Z.mod_small by lia.
  destruct (Z.leb_spec 48 (48 + d)); [|lia].
  destruct (Z.leb_spec (48 + d) 57); [|lia]. cbn [andb]. f_equal. lia.
Qed.

Lemma digit_char_not_space (d : Z) : is_digit d -> is_space (digit_char d) = false.
Proof.
  intros Hd. unfold is_digit in Hd. unfold is_space, digit_char.
  rewrite byte_val_of_Z, Z.mod_small by lia.
  apply orb_false_iff. split; [apply Z.eqb_neq; lia|].
  apply andb_false_iff. right. apply Z.leb_gt. lia.
Qed.

Lemma skip_spaces_app (ws s : list byte) :
  Forall (fun c => is_space c = true) ws -> skip_spaces (ws ++ s) = skip_spaces s.
Proof.
  induction 1 as [|c ws Hc _ IH]; [reflexivity|]. cbn [app skip_spaces]. by rewrite Hc.
Qed.

(** The loop computes the number the digits denote. *)
Lemma read_digits_positional (ds : list Z) (c : byte) (rest : list byte) (acc : Z) :
  Forall is_digit ds -> digit_of c = None ->
  read_digits (map digit_char ds ++ c :: rest) acc
  = Some (acc * 10 ^ blen ds + positional ds).
Proof.
  intros Hds Hc. revert acc. induction Hds as [|d ds Hd _ IH]; intros acc.
  { cbn. rewrite Hc. f_equal. change (blen (@nil Z)) with 0. lia. }
  cbn [map app read_digits positional]. rewrite digit_of_digit_char, IH by assumption.
  f_equal. unfold blen. cbn [length]. rewrite Nat2Z.inj_succ, Z.pow_succ_r by lia. lia.
Qed.

(** On white space, a sign or none, and a nonempty sequence of decimal
    digits ending at a character that is not a digit, the call returns the
    number the digits denote, negated after a minus sign, when that is an
    [int]; when it is not, the call is undefined. *)
Theorem parse_int_number (ws sign rest : list byte) (ds : list Z) (c : byte) (k : Z) :
  Forall (fun c => is_space c = true) ws ->
  (sign, k) ∈ [([], 1); (["+"%byte], 1); (["-"%byte], -1)] ->
  Forall is_digit ds -> ds <> [] -> digit_of c = None ->
  parse_int (Some (ws ++ sign ++ map digit_char ds ++ c :: rest))
  = if in_int (k * positional ds) then Returned (k * positional ds) else Undefined.
Proof.
  intros Hws Hsign Hds Hne Hc. unfold parse_int, atoi.
  rewrite skip_spaces_app by assumption.
  pose proof (read_digits_positional ds c rest 0 Hds Hc) as Hrd.
  rewrite Z.mul_0_l, Z.add_0_l in Hrd.
  rewrite !elem_of_cons, elem_of_nil in Hsign.
  destruct Hsign as [[= -> ->] | [[= -> ->] | [[= -> ->] | []]]].
  - destruct ds as [|d ds]; [done|]. inversion Hds as [|? ? Hd Hds']; subst.
    cbn [app map skip_spaces]. rewrite digit_char_not_space by assumption.
    assert (Hm : Byte.eqb (digit_char d) "-" = false).
    { destruct (Byte.eqb (digit_char d) "-") eqn:E; [|reflexivity].
      apply byte_eqb_eq in E. pose proof (digit_of_digit_char d Hd) as Hdig.
      rewrite E in Hdig. discriminate. }
    assert (Hp : Byte.eqb (digit_char d) "+" = false).
    { destruct (Byte.eqb (digit_char d) "+") eqn:E; [|reflexivity].
      apply byte_eqb_eq in E. pose proof (digit_of_digit_char d Hd) as Hdig.
      rewrite E in Hdig. discriminate. }
    rewrite Hm, Hp. cbn [orb]. cbn [map app] in Hrd. rewrite Hrd.
    by rewrite Z.mul_1_l.
  - cbn [app skip_spaces]. change (is_space "+") with false. cbv iota.
    change (Byte.eqb "+" "-") with false. change (Byte.eqb "+" "+") with true.
    cbn [orb]. rewrite Hrd. by rewrite Z.mul_1_l.
  - cbn [app skip_spaces]. change (is_space "-") with false. cbv iota.
    change (Byte.eqb "-" "-") with true. cbn [orb]. rewrite Hrd.
    by replace (-1 * positional ds) with (- positional ds) by lia.
Qed.

Lemma parse_int_number_witness :
  (Forall (fun c => is_space c = true) [" "; "009"]%byte /\
   (["-"%byte], -1) ∈ [([], 1); (["+"%byte], 1); (["-"%byte], -1)] /\
   Forall is_digit [4; 0; 7] /\ [4; 0; 7] <> [] /\ digit_of "x" = None) /\
  parse_int (Some ([" "; "009"] ++ ["-"] ++ map digit_char [4; 0; 7] ++ "x" :: ["9"])%byte)
  = Returned (-407).
Proof.
  assert (H1 : Forall (fun c => is_space c = true) [" "; "009"]%byte)
    by (repeat constructor).
  assert (H2 : (["-"%byte], -1) ∈ [([], 1); (["+"%byte], 1); (["-"%byte], -1)]).
  { do 2 apply list_elem_of_further. apply list_elem_of_here. }
  assert (H3 : Forall is_digit [4; 0; 7]).
  { repeat constructor; vm_compute; discriminate. }
  assert (H4 : [4; 0; 7] <> []) by discriminate.
  assert (H5 : digit_of "x" = None) by reflexivity.
  split; [auto 6|].
  exact (parse_int_number _ _ ["9"]%byte _ _ _ H1 H2 H3 H4 H5).
Defined.

(** When the first character after the white space is neither a sign nor a
    digit, the call returns 0: the value it also returns for a null pointer
    and for the number zero. *)
Theorem parse_int_no_number (ws rest : list byte) (c : byte) :
  Forall (fun c => is_space c = true) ws ->
  is_space c = false -> digit_of c = None -> c <> "-"%byte -> c <> "+"%byte ->
  parse_int (Some (ws ++ c :: rest)) = Returned 0 /\
  parse_int None = Returned 0 /\
  parse_int (Some (ws ++ digit_char 0 :: c :: rest)) = Returned 0.
Proof.
  intros Hws Hsp Hc Hm Hp. split; [|split; [reflexivity|]].
  - unfold parse_int, atoi. rewrite skip_spaces_app by assumption.
    cbn [skip_spaces]. rewrite Hsp.
    assert (Byte.eqb c "-" = false) as ->.
    { destruct (Byte.eqb c "-") eqn:E; [apply byte_eqb_eq in E; done | reflexivity]. }
    assert (Byte.eqb c "+" = false) as ->.
    { destruct (Byte.eqb c "+") eqn:E; [apply byte_eqb_eq in E; done | reflexivity]. }
    cbn [orb read_digits]. by rewrite Hc.
  - unfold parse_int, atoi. rewrite skip_spaces_app by assumption.
    change (digit_char 0) with "0"%byte. cbn [skip_spaces].
    change (is_space "0") with false. cbv iota.
    change (Byte.eqb "0" "-") with false. change (Byte.eqb "0" "+") with false.
    cbn [orb read_digits]. change (digit_of "0") with (Some 0). cbv iota.
    by rewrite Hc.
Qed.

Lemma parse_int_no_number_witness :
  (Forall (fun c => is_space c = true) [" "]%byte /\
   is_space "a" = false /\ digit_of "a" = None /\
   "a"%byte <> "-"%byte /\ "a"%byte <> "+"%byte) /\
  parse_int (Some ([" "] ++ "a" :: ["1"; "000"])%byte) = Returned 0.
Proof.
  assert (H1 : Forall (fun c => is_space c = true) [" "]%byte) by (repeat constructor).
  assert (H2 : is_space "a" = false) by reflexivity.
  assert (H3 : digit_of "a" = None) by reflexivity.
  assert (H4 : "a"%byte <> "-"%byte) by discriminate.
  assert (H5 : "a"%byte <> "+"%byte) by discriminate.
  split; [auto 6|].
  exact (proj1 (parse_int_no_number _ ["1"; "000"]%byte _ H1 H2 H3 H4 H5)).
Defined.
